(** * Shai-Hulud package-lock analyzer: the detection core of [app.js]

    A shallow embedding of the four functions of [src/app.js] that decide
    what the analyzer reports,

      - [compareVersions]               (lines 180-192)
      - [checkPackage]                  (lines 195-243)
      - [extractDependencies] and
        [extractDependenciesRecursive]  (lines 139-177)
      - [analyzePackageLock]            (lines 103-136)

    together with the JavaScript built-ins they call ([String.prototype.split],
    [Number], [Object.entries], property reads, truthiness, [===],
    [Array.prototype.includes]/[find]/[some]).

    Conventions of the model.

    - A JavaScript string is a [string]; every character stands for one
      code unit, so the model covers the strings whose code units are below
      256.
    - A JavaScript number is an IEEE-754 binary64 value, written as a
      [spec_float] of the standard library with precision 53 and maximal
      exponent 1024.
    - A parsed JSON document is a [value].  The field list of an object is
      the list [Object.entries] reports, in that order.
    - A function that can throw returns a [res]; the only exception the
      modelled code can raise is a [TypeError].
    - The recursion of [extractDependenciesRecursive] runs on fuel; the
      caller hands it more than the document is deep, which is shown to be
      enough whatever the document. *)

From Stdlib Require Import ZArith List String Ascii Bool Lia Arith.
From Stdlib Require Import Permutation.
From Stdlib Require Import DecimalString.
From Stdlib Require Import SpecFloat.
Import ListNotations.

Local Open Scope string_scope.
Local Open Scope list_scope.

(* ================================================================== *)
(** ** Results of computations that may throw *)

Inductive res (A : Type) : Type :=
| Ok (a : A)
| Throw            (* a TypeError was raised *)
| OutOfFuel.       (* the model ran out of recursion fuel; never a JS outcome *)

Arguments Ok {A} a.
Arguments Throw {A}.
Arguments OutOfFuel {A}.

Definition bind {A B : Type} (m : res A) (k : A -> res B) : res B :=
  match m with
  | Ok a => k a
  | Throw => Throw
  | OutOfFuel => OutOfFuel
  end.

Notation "x <- m ;; k" := (bind m (fun x => k))
  (at level 61, m at next level, right associativity).

(* ================================================================== *)
(** ** Numbers *)

Module Num.

Local Open Scope Z_scope.

Definition number : Type := spec_float.

Definition prec : Z := 53.
Definition emax : Z := 1024.

Definition zero : number := S754_zero false.
Definition NaN : number := S754_nan.
Definition Infinity : number := S754_infinity false.

(** [ToBoolean] of a number: [0], [-0] and [NaN] are falsy. *)
Definition truthy (x : number) : bool :=
  match x with
  | S754_zero _ | S754_nan => false
  | _ => true
  end.

(** [x < y] and [x > y] on numbers; [x > y] is [y < x]. *)
Definition lt (x y : number) : bool := SFltb x y.
Definition gt (x y : number) : bool := SFltb y x.

(** The binary64 value nearest to the ratio [p / q] of two positive
    integers, with the sign given: the quotient
    is taken with 55 significant bits at least and the remainder is
    folded into a sticky last bit, so that a single rounding to nearest
    even decides as on the exact value. *)
Definition of_ratio (sign : bool) (p q : Z) : number :=
  let s := Z.max 0 (Z.log2_up q - Z.log2 p + 55) in
  let n := p * 2 ^ s in
  let m := n / q in
  let sticky := if n mod q =? 0 then 0 else 1 in
  let m' := 2 * m + sticky in
  binary_normalize prec emax (if sign then - m' else m') (- s - 1) sign.

(** The number written [sign digits * 10^e10]. *)
Definition of_decimal (sign : bool) (digits : Z) (e10 : Z) : number :=
  if digits =? 0 then S754_zero sign
  else if 0 <=? e10
       then binary_normalize prec emax
              (if sign then - (digits * 10 ^ e10) else digits * 10 ^ e10) 0 sign
       else of_ratio sign digits (10 ^ (- e10)).

End Num.

(* ================================================================== *)
(** ** Strings *)

Module Str.

Definition dot : ascii := "."%char.

(** [s.split('.')]: the pieces of [s] between the dots; never empty. *)
Fixpoint split (s : string) : list string :=
  match s with
  | EmptyString => [ "" ]
  | String c rest =>
      if Ascii.eqb c dot then "" :: split rest
      else match split rest with
           | piece :: pieces => String c piece :: pieces
           | [] => [ String c "" ]
           end
  end.

Definition starts_with (p s : string) : bool := String.prefix p s.

Definition drop (n : nat) (s : string) : string :=
  String.substring n (String.length s - n) s.

(** [path.replace(/^node_modules\//, '')] *)
Definition strip_node_modules (path : string) : string :=
  if starts_with "node_modules/" path
  then drop (String.length "node_modules/") path
  else path.

(** The decimal numeral of an array index, as [Object.entries] writes it. *)
Definition of_index (i : nat) : string :=
  NilEmpty.string_of_uint (Nat.to_uint i).

(** White space and line terminators (code units below 256): TAB, LF, VT,
    FF, CR, SP and NBSP. *)
Definition is_space (c : ascii) : bool :=
  let n := nat_of_ascii c in
  ((9 <=? n)%nat && (n <=? 13)%nat) || (n =? 32)%nat || (n =? 160)%nat.

Fixpoint trim_left (s : string) : string :=
  match s with
  | String c rest => if is_space c then trim_left rest else s
  | EmptyString => EmptyString
  end.

Fixpoint rev_onto (s acc : string) : string :=
  match s with
  | EmptyString => acc
  | String c rest => rev_onto rest (String c acc)
  end.

Definition rev (s : string) : string := rev_onto s "".

Definition trim (s : string) : string :=
  rev (trim_left (rev (trim_left s))).

End Str.

(* ================================================================== *)
(** ** [Number(s)]: the StringToNumber conversion *)

Module ToNumber.

Import Str.
Local Open Scope Z_scope.

(** The value of a digit in a radix, when it is one. *)
Definition digit_value (radix : Z) (c : ascii) : option Z :=
  let n := Z.of_nat (nat_of_ascii c) in
  let v := if (48 <=? n) && (n <=? 57) then Some (n - 48)
           else if (97 <=? n) && (n <=? 102) then Some (n - 87)
           else if (65 <=? n) && (n <=? 70) then Some (n - 55)
           else None in
  match v with
  | Some d => if d <? radix then Some d else None
  | None => None
  end.

(** Reads the longest run of digits at the head of [s]: the integer they
    denote, how many there are, and what follows them. *)
Fixpoint digits (radix : Z) (s : string) (acc : Z) (count : nat)
  : Z * nat * string :=
  match s with
  | String c rest =>
      match digit_value radix c with
      | Some d => digits radix rest (acc * radix + d) (S count)
      | None => (acc, count, s)
      end
  | EmptyString => (acc, count, s)
  end.

(** An optional sign: [true] for a minus. *)
Definition sign (s : string) : bool * string :=
  match s with
  | String "-" rest => (true, rest)
  | String "+" rest => (false, rest)
  | _ => (false, s)
  end.

(** NonDecimalIntegerLiteral: all of [s] is digits of the radix, one at
    least. *)
Definition non_decimal (radix : Z) (s : string) : Num.number :=
  match digits radix s 0 0%nat with
  | (n, S _, EmptyString) => Num.of_decimal false n 0
  | _ => Num.NaN
  end.

(** ExponentPart, when present: [e] or [E], an optional sign and one
    digit at least, up to the end of the string. *)
Definition exponent (s : string) : option Z :=
  match s with
  | EmptyString => Some 0
  | String c rest =>
      if Ascii.eqb c "e" || Ascii.eqb c "E" then
        let (neg, rest) := sign rest in
        match digits 10 rest 0 0%nat with
        | (e, S _, EmptyString) => Some (if neg then - e else e)
        | _ => None
        end
      else None
  end.

(** StrUnsignedDecimalLiteral after its sign. *)
Definition unsigned_decimal (neg : bool) (s : string) : Num.number :=
  if String.eqb s "Infinity" then S754_infinity neg
  else
    let '(ip, ni, rest) := digits 10 s 0 0%nat in
    let '(m, nf, n, rest) :=
      match rest with
      | String "." rest' =>
          let '(m, nf, rest'') := digits 10 rest' ip 0%nat in
          (m, nf, (ni + nf)%nat, rest'')
      | _ => (ip, 0%nat, ni, rest)
      end in
    match n with
    | O => Num.NaN
    | S _ =>
        match exponent rest with
        | Some e => Num.of_decimal neg m (e - Z.of_nat nf)
        | None => Num.NaN
        end
    end.

(** StrNumericLiteral *)
Definition numeric_literal (s : string) : Num.number :=
  match s with
  | String "0" (String c rest) =>
      if Ascii.eqb c "x" || Ascii.eqb c "X" then non_decimal 16 rest
      else if Ascii.eqb c "o" || Ascii.eqb c "O" then non_decimal 8 rest
      else if Ascii.eqb c "b" || Ascii.eqb c "B" then non_decimal 2 rest
      else unsigned_decimal false s
  | _ => let (neg, rest) := sign s in unsigned_decimal neg rest
  end.

(** [Number(s)] for a string [s]: white space around the literal is
    dropped, the empty literal is [0], anything that is not a numeric
    literal is [NaN]. *)
Definition Number (s : string) : Num.number :=
  let t := trim s in
  if String.eqb t "" then Num.zero else numeric_literal t.

End ToNumber.

Definition Number := ToNumber.Number.

(* ================================================================== *)
(** ** JSON values *)

#[warnings="-register-all"] Inductive value : Type :=
| VUndefined
| VNull
| VBool (b : bool)
| VNum (x : Num.number)
| VStr (s : string)
| VArr (items : list value)
| VObj (fields : list (string * value)).

(** [ToBoolean] *)
Definition truthy (v : value) : bool :=
  match v with
  | VUndefined | VNull => false
  | VBool b => b
  | VNum x => Num.truthy x
  | VStr s => negb (String.eqb s "")
  | VArr _ | VObj _ => true
  end.

(** [a || b] *)
Definition or_else (a b : value) : value := if truthy a then a else b.

(** The own property [k] of an object, [undefined] when there is none. *)
Fixpoint lookup (k : string) (fields : list (string * value)) : value :=
  match fields with
  | [] => VUndefined
  | (k', v) :: rest => if String.eqb k k' then v else lookup k rest
  end.

(** The property read [v.k], for the four names the program reads
    ([packages], [dependencies], [name], [version]): none of them is an
    index, [length] or a property of a built-in prototype, so the read
    finds an own property of an object or nothing.  Reading a property of
    [null] or [undefined] throws. *)
Definition prop (v : value) (k : string) : res value :=
  match v with
  | VUndefined | VNull => Throw
  | VObj fields => Ok (lookup k fields)
  | VBool _ | VNum _ | VStr _ | VArr _ => Ok VUndefined
  end.

Fixpoint indexed {A : Type} (i : nat) (xs : list A) : list (string * A) :=
  match xs with
  | [] => []
  | x :: rest => (Str.of_index i, x) :: indexed (S i) rest
  end.

Fixpoint chars (s : string) : list value :=
  match s with
  | EmptyString => []
  | String c rest => VStr (String c "") :: chars rest
  end.

(** [Object.entries(v)] *)
Definition entries (v : value) : res (list (string * value)) :=
  match v with
  | VUndefined | VNull => Throw
  | VBool _ | VNum _ => Ok []
  | VStr s => Ok (indexed 0 (chars s))
  | VArr items => Ok (indexed 0 items)
  | VObj fields => Ok fields
  end.

(** [xs.forEach(f)] where [f] updates the state [s] and may throw. *)
Fixpoint forEach {A S : Type} (xs : list A) (f : A -> S -> res S) (s : S)
  : res S :=
  match xs with
  | [] => Ok s
  | x :: rest => s' <- f x s ;; forEach rest f s'
  end.

(** How deeply arrays and objects are nested in a value. *)
Fixpoint depth (v : value) : nat :=
  match v with
  | VArr items => S (fold_right (fun x n => Nat.max (depth x) n) 0 items)
  | VObj fields =>
      S (fold_right (fun kv n => Nat.max (depth (snd kv)) n) 0 fields)
  | _ => 0
  end.

(* ================================================================== *)
(** ** The reference dataset and the records of a scan *)

Module Pkg.
(** An element of [compromisedPackages]. *)
Record t : Type := make { name : string; compromisedVersions : list string }.
End Pkg.

(** [compromisedPackagesData], once loaded. *)
Record Dataset : Type := {
  attackName : string;
  lastUpdate : string;
  compromisedPackages : list Pkg.t
}.

Module Dep.
(** [{ name, version, path }] *)
Record t : Type := make { name : value; version : value; path : string }.
End Dep.

Inductive Severity : Type := critical | high | warning.

Module Threat.
(** What [checkPackage] returns for a listed package.  The [description]
    text, fixed by the severity, is display only and left out. *)
Record t : Type := make {
  severity : Severity;
  compromisedVersions : list string;
  installedVersion : value;
  exactMatch : bool
}.
End Threat.

Module Finding.
(** [{ ...dep, threat }] *)
Record t : Type := make {
  name : value; version : value; path : string; threat : Threat.t
}.
End Finding.

(** The accumulator [results] of [analyzePackageLock]. *)
Record Results : Type := {
  safe : nat;
  warnings : nat;
  threats : list Finding.t;
  allPackages : list Dep.t
}.

(* ================================================================== *)
(** ** [compareVersions] *)

(** [parts[i] || 0] *)
Definition part (parts : list Num.number) (i : nat) : Num.number :=
  match nth_error parts i with
  | Some p => if Num.truthy p then p else Num.zero
  | None => Num.zero
  end.

(** The [for] loop, with [steps] iterations left from index [i]. *)
Fixpoint compareLoop (steps i : nat) (parts1 parts2 : list Num.number) : Z :=
  match steps with
  | O => 0%Z
  | S steps' =>
      let p1 := part parts1 i in
      let p2 := part parts2 i in
      if Num.gt p1 p2 then 1%Z
      else if Num.lt p1 p2 then (-1)%Z
      else compareLoop steps' (S i) parts1 parts2
  end.

Definition compareParts (parts1 parts2 : list Num.number) : Z :=
  compareLoop (Nat.max (List.length parts1) (List.length parts2)) 0
    parts1 parts2.

(** [v.split('.').map(Number)]; [split] is a method of strings only. *)
Definition parts_of (v : value) : res (list Num.number) :=
  match v with
  | VStr s => Ok (map Number (Str.split s))
  | _ => Throw
  end.

Definition compareVersions (v1 v2 : value) : res Z :=
  parts1 <- parts_of v1 ;;
  parts2 <- parts_of v2 ;;
  Ok (compareParts parts1 parts2).

(** The comparator on two strings, where nothing can throw. *)
Definition compareStrings (a b : string) : Z :=
  compareParts (map Number (Str.split a)) (map Number (Str.split b)).

(* ================================================================== *)
(** ** [checkPackage] *)

(** [s === v] for a string [s] *)
Definition string_equals (s : string) (v : value) : bool :=
  match v with
  | VStr t => String.eqb s t
  | _ => false
  end.

(** [compVer => { try { return compareVersions(version, compVer) > 0 }
                  catch (e) { return false } }] *)
Definition isHigherThan (version : value) (compVer : string) : bool :=
  match compareVersions version (VStr compVer) with
  | Ok r => (r >? 0)%Z
  | Throw | OutOfFuel => false
  end.

Definition checkPackage (data : Dataset) (packageName version : value)
  : option Threat.t :=
  match find (fun pkg => string_equals (Pkg.name pkg) packageName)
             (compromisedPackages data) with
  | None => None
  | Some compromisedPkg =>
      let exactMatch :=
        existsb (fun c => string_equals c version)
                (Pkg.compromisedVersions compromisedPkg) in
      if exactMatch then
        Some (Threat.make critical (Pkg.compromisedVersions compromisedPkg)
                          version true)
      else
        let isHigherVersion :=
          existsb (isHigherThan version)
                  (Pkg.compromisedVersions compromisedPkg) in
        if isHigherVersion then
          Some (Threat.make high (Pkg.compromisedVersions compromisedPkg)
                            version false)
        else
          Some (Threat.make warning (Pkg.compromisedVersions compromisedPkg)
                            version false)
  end.

(* ================================================================== *)
(** ** [extractDependencies] *)

(** The body of the [forEach] over [Object.entries(packageLock.packages)]. *)
Definition extractPackage (entry : string * value) (dependencies : list Dep.t)
  : res (list Dep.t) :=
  let (path, pkg) := entry in
  if String.eqb path "" then Ok dependencies
  else
    pkgName <- prop pkg "name" ;;
    let name := or_else pkgName (VStr (Str.strip_node_modules path)) in
    version <- prop pkg "version" ;;
    if truthy name && truthy version
    then Ok (dependencies ++ [Dep.make name version path])
    else Ok dependencies.

Fixpoint extractDependenciesRecursive (fuel : nat) (deps : value)
    (result : list Dep.t) (prefix : string) : res (list Dep.t) :=
  match fuel with
  | O => OutOfFuel
  | S fuel' =>
      es <- entries deps ;;
      forEach es (fun '(name, info) result =>
        version <- prop info "version" ;;
        let result := result ++ [Dep.make (VStr name) version (prefix ++ name)] in
        nested <- prop info "dependencies" ;;
        if truthy nested
        then extractDependenciesRecursive fuel' nested result
               (prefix ++ name ++ " > ")
        else Ok result) result
  end.

Definition extractDependencies (packageLock : value) : res (list Dep.t) :=
  let dependencies := [] in
  packages <- prop packageLock "packages" ;;
  dependencies <-
    (if truthy packages
     then es <- entries packages ;; forEach es extractPackage dependencies
     else Ok dependencies) ;;
  deps <- prop packageLock "dependencies" ;;
  if truthy deps
  then extractDependenciesRecursive (S (depth packageLock)) deps dependencies ""
  else Ok dependencies.

(* ================================================================== *)
(** ** [analyzePackageLock] *)

(** The body of [dependencies.forEach(dep => ...)]. *)
Definition analyzeDependency (data : Dataset) (results : Results) (dep : Dep.t)
  : Results :=
  let threat := checkPackage data (Dep.name dep) (Dep.version dep) in
  let results :=
    match threat with
    | Some threat =>
        {| safe := safe results;
           warnings := warnings results;
           threats := threats results ++
             [Finding.make (Dep.name dep) (Dep.version dep) (Dep.path dep) threat];
           allPackages := allPackages results |}
    | None =>
        {| safe := S (safe results);
           warnings := warnings results;
           threats := threats results;
           allPackages := allPackages results |}
    end in
  {| safe := safe results;
     warnings := warnings results;
     threats := threats results;
     allPackages := allPackages results ++ [dep] |}.

(** The scan of a dependency list, from the fresh [results] object. *)
Definition scan (data : Dataset) (dependencies : list Dep.t) : Results :=
  fold_left (analyzeDependency data) dependencies
    {| safe := 0; warnings := 0; threats := []; allPackages := [] |}.

(** What the call leaves behind: an alert, or the results handed to
    [displayResults]. *)
Inductive Outcome : Type :=
| Alerted (message : string)
| Displayed (results : Results).

Definition analyzePackageLock (compromisedPackagesData : option Dataset)
    (packageLock : value) : res Outcome :=
  match compromisedPackagesData with
  | None => Ok (Alerted "Compromised packages data is not loaded yet.")
  | Some data =>
      dependencies <- extractDependencies packageLock ;;
      Ok (Displayed (scan data dependencies))
  end.

(** The value the loop reads at index [i] of the version string [v]. *)
Definition slot (v : string) (i : nat) : Num.number :=
  part (map Number (Str.split v)) i.

(* ================================================================== *)
(** ** Vocabulary of the specification *)

(** The field [k] of a document that is not [null]: its own property, or
    [undefined]. *)
Definition field (v : value) (k : string) : value :=
  match v with
  | VObj fields => lookup k fields
  | _ => VUndefined
  end.

(** [null] and [undefined], of which no property can be read. *)
Definition nullish (v : value) : bool :=
  match v with
  | VUndefined | VNull => true
  | _ => false
  end.

(** [pkg] is the entry the dataset lookup matches for the name [n]: the
    first of that name in [compromisedPackages]. *)
Definition first_named (data : Dataset) (n : string) (pkg : Pkg.t) : Prop :=
  exists before after,
    compromisedPackages data = before ++ pkg :: after /\
    Pkg.name pkg = n /\
    Forall (fun q => Pkg.name q <> n) before.

(** The Finding of a dependency, when the classifier knows its name. *)
Definition findingOf (data : Dataset) (dep : Dep.t) : list Finding.t :=
  match checkPackage data (Dep.name dep) (Dep.version dep) with
  | Some threat =>
      [Finding.make (Dep.name dep) (Dep.version dep) (Dep.path dep) threat]
  | None => []
  end.

Definition notFound (data : Dataset) (dep : Dep.t) : bool :=
  match checkPackage data (Dep.name dep) (Dep.version dep) with
  | Some _ => false
  | None => true
  end.

(** The flat-map strategy on one entry of [packages], as the specification
    words it: the root entry gives nothing; another entry is named by its
    [name] field when present, else by its key less one leading
    [node_modules/], and is kept when name and version are both present.
    A field is present when the read gives a truthy value, as any
    non-empty string is. *)
Definition flatEntry (entry : string * value) : list Dep.t :=
  let key := fst entry in
  let pkg := snd entry in
  if String.eqb key "" then []
  else
    let name :=
      if truthy (field pkg "name") then field pkg "name"
      else VStr (Str.strip_node_modules key) in
    if truthy name && truthy (field pkg "version")
    then [Dep.make name (field pkg "version") key]
    else [].

(** A v1 dependency tree: every node has a version (possibly [undefined])
    and named children. *)
#[warnings="-register-all"] Inductive Tree : Type :=
| Node (version : value) (children : list (string * Tree)).

(** The names from the root down, joined by [" > "]. *)
Definition joinPath (names : list string) : string :=
  String.concat " > " names.

(** The prefix the walk carries below the nodes named [ancestors]. *)
Definition prefixOf (ancestors : list string) : string :=
  String.concat "" (map (fun a => (a ++ " > ")%string) ancestors).

(** The depth-first, parent-first listing of a tree: one Dependency per
    node, named by the node's key, its path the names of its ancestors and
    its own joined by [" > "]. *)
Fixpoint visit (ancestors : list string) (name : string) (t : Tree)
  : list Dep.t :=
  match t with
  | Node version children =>
      Dep.make (VStr name) version (joinPath (ancestors ++ [name])) ::
      flat_map (fun kc => visit (ancestors ++ [name]) (fst kc) (snd kc))
               children
  end.

Definition preorder (ancestors : list string) (forest : list (string * Tree))
  : list Dep.t :=
  flat_map (fun kc => visit ancestors (fst kc) (snd kc)) forest.

(** The number of nodes of a forest. *)
Fixpoint nodes (t : Tree) : nat :=
  match t with
  | Node _ children =>
      S (fold_right (fun kc n => nodes (snd kc) + n) 0 children)
  end.

Definition forestNodes (forest : list (string * Tree)) : nat :=
  fold_right (fun kc n => nodes (snd kc) + n) 0 forest.

(** [represents deps forest]: the value [deps] is a v1 [dependencies]
    mapping and [forest] is the tree it spells.  Every entry is a node; its
    version is what the read of [version] gives, and it has children when
    its [dependencies] field holds something truthy. *)
Inductive represents : value -> list (string * Tree) -> Prop :=
| represents_entries deps es forest :
    entries deps = Ok es ->
    Forall2 (fun e n => fst e = fst n /\ represents_node (snd e) (snd n))
            es forest ->
    represents deps forest
with represents_node : value -> Tree -> Prop :=
| represents_leaf info version nested :
    prop info "version" = Ok version ->
    prop info "dependencies" = Ok nested ->
    truthy nested = false ->
    represents_node info (Node version [])
| represents_inner info version nested children :
    prop info "version" = Ok version ->
    prop info "dependencies" = Ok nested ->
    truthy nested = true ->
    represents nested children ->
    represents_node info (Node version children).

(* ================================================================== *)
(** ** Sample inputs *)

Module Sample.

(** One listed package with two compromised versions. *)
Definition data : Dataset :=
  {| attackName := "Shai Hulud 2.0";
     lastUpdate := "2025-11-25";
     compromisedPackages := [Pkg.make "X" ["1.0.0"; "3.0.0"]] |}.

(** [{"packages": {"": {"name":"root","version":"1.0.0"},
                   "node_modules/foo": {"version":"1.0.0"}}}] *)
Definition flat : value :=
  VObj [("packages",
         VObj [("", VObj [("name", VStr "root"); ("version", VStr "1.0.0")]);
               ("node_modules/foo", VObj [("version", VStr "1.0.0")])])].

(** [{"dependencies": {"a": {"version":"1.0.0",
                             "dependencies": {"b": {"version":"2.0.0"}}}}}] *)
Definition nested : value :=
  VObj [("dependencies",
         VObj [("a", VObj [("version", VStr "1.0.0");
                           ("dependencies",
                            VObj [("b", VObj [("version", VStr "2.0.0")])])])])].

Definition nested_forest : list (string * Tree) :=
  [("a", Node (VStr "1.0.0") [("b", Node (VStr "2.0.0") [])])].

(** The dataset of the specification's examples: X with 1.0.0 compromised. *)
Definition single : Dataset :=
  {| attackName := "Shai Hulud 2.0";
     lastUpdate := "2025-11-25";
     compromisedPackages := [Pkg.make "X" ["1.0.0"]] |}.

(** [{"dependencies": {"X": {}}}]: a listed name without a version. *)
Definition versionless : value :=
  VObj [("dependencies", VObj [("X", VObj [])])].

End Sample.

(* ================================================================== *)
(** ** Further vocabulary *)

(** The place of a number other than [NaN] in the order of [<]: its class
    (negative infinity, negative, zero, positive, positive infinity), then
    exponent and mantissa, mirrored for the negative numbers. *)
Definition rank (x : Num.number) : Z * Z * Z :=
  match x with
  | S754_infinity true => (-2, 0, 0)%Z
  | S754_finite true m e => (-1, - e, - Zpos m)%Z
  | S754_zero _ | S754_nan => (0, 0, 0)%Z
  | S754_finite false m e => (1, e, Zpos m)%Z
  | S754_infinity false => (2, 0, 0)%Z
  end.

Definition lexlt (u v : Z * Z * Z) : Prop :=
  let '(a, b, c) := u in
  let '(a', b', c') := v in
  (a < a' \/ (a = a' /\ (b < b' \/ (b = b' /\ c < c'))))%Z.

(** Two slots that [<] does not tell apart. *)
Definition alike (x y : Num.number) : Prop :=
  Num.lt x y = false /\ Num.lt y x = false.

(** ** [displayResults]: the counters and the threat list (lines 246-292)

    What the function writes into the page, without the markup: the three
    counters, the cards (one per threat, in order) or the "No threats
    detected" block, and the total of the statistics.  The percentages,
    formatted with [toFixed], are left out. *)
Record Display : Type := {
  safeCount : nat;
  warningCount : nat;
  dangerCount : nat;
  noThreats : bool;
  cards : list Finding.t;
  totalPackages : nat
}.

Definition isCritical (t : Finding.t) : bool :=
  match Threat.severity (Finding.threat t) with
  | critical => true
  | _ => false
  end.

Definition isWarningOrHigh (t : Finding.t) : bool :=
  match Threat.severity (Finding.threat t) with
  | warning | high => true
  | critical => false
  end.

Definition displayResults (results : Results) : Display :=
  {| safeCount := safe results;
     warningCount := List.length (filter isWarningOrHigh (threats results));
     dangerCount := List.length (filter isCritical (threats results));
     noThreats := (List.length (threats results) =? 0)%nat;
     cards := if (List.length (threats results) =? 0)%nat then []
              else threats results;
     totalPackages := List.length (allPackages results) |}.

(** An entry of [packages] the flat strategy cannot read: [null] (or
    [undefined]) under a key other than the root's. *)
Definition badEntry (entry : string * value) : bool :=
  negb (String.eqb (fst entry) "") && nullish (snd entry).

(* ================================================================== *)
(** ** [processCSV] of the dataset converter (src/unnamed/part_001, lines
       216-277)

    The converter turns the CSV of indicators into the dataset the
    analyzer loads.  Modelled: the parsing of the CSV and the object it
    builds.  The date of the day, which the source takes from the clock,
    is an argument; the constant [source] field, which the analyzer never
    reads, and the writing of the file are left out. *)

Module Csv.

Definition comma : ascii := ","%char.
Definition quote : ascii := "034"%char.
Definition newline : ascii := "010"%char.

(** [s.split(sep)] for a separator of one character. *)
Fixpoint split_on (sep : ascii) (s : string) : list string :=
  match s with
  | EmptyString => [ "" ]
  | String c rest =>
      if Ascii.eqb c sep then "" :: split_on sep rest
      else match split_on sep rest with
           | piece :: pieces => String c piece :: pieces
           | [] => [ String c "" ]
           end
  end.

(** [parts], [current] and [inQuotes] while a line is read. *)
Record LineState : Type := {
  parts : list string;
  current : string;
  inQuotes : bool
}.

(** The body of [for (let char of line)]. *)
Definition step (st : LineState) (char : ascii) : LineState :=
  if Ascii.eqb char quote then
    {| parts := parts st; current := current st;
       inQuotes := negb (inQuotes st) |}
  else if Ascii.eqb char comma && negb (inQuotes st) then
    {| parts := parts st ++ [Str.trim (current st)]; current := "";
       inQuotes := inQuotes st |}
  else
    {| parts := parts st; current := (current st ++ String char "")%string;
       inQuotes := inQuotes st |}.

Fixpoint scanLine (line : string) (st : LineState) : LineState :=
  match line with
  | EmptyString => st
  | String char rest => scanLine rest (step st char)
  end.

(** The fields of a line: split at the commas outside quotes, the quotes
    dropped, every field trimmed. *)
Definition parseLine (line : string) : list string :=
  let st := scanLine line {| parts := []; current := ""; inQuotes := false |} in
  parts st ++ [Str.trim (current st)].

(** [versionsString.split(',').map(v => v.trim()).filter(v => v)] *)
Definition versionsOf (versionsString : string) : list string :=
  filter (fun v => negb (String.eqb v ""))
         (map Str.trim (split_on comma versionsString)).

(** The body of the loop over the lines, for one line. *)
Definition processLine (packages : list Pkg.t) (rawLine : string)
  : list Pkg.t :=
  let line := Str.trim rawLine in
  if String.eqb line "" then packages
  else
    match parseLine line with
    | packageName :: versionsString :: _ =>
        packages ++ [Pkg.make packageName (versionsOf versionsString)]
    | _ => packages
    end.

(** The packages of a CSV: every line but the first. *)
Definition packagesOf (csvContent : string) : list Pkg.t :=
  let lines := split_on newline csvContent in
  fold_left processLine (tl lines) [].

Definition processCSV (today csvContent : string) : Dataset :=
  {| attackName := "Shai Hulud 2.0";
     lastUpdate := today;
     compromisedPackages := packagesOf csvContent |}.

(** *** Vocabulary for its properties *)

(** No character of [s] is [c]. *)
Fixpoint lacks (c : ascii) (s : string) : bool :=
  match s with
  | EmptyString => true
  | String x rest => negb (Ascii.eqb x c) && lacks c rest
  end.

(** [s] does not begin, or end, with white space. *)
Definition headOk (s : string) : bool :=
  match s with
  | EmptyString => true
  | String c _ => negb (Str.is_space c)
  end.

Definition lastOk (s : string) : bool := headOk (Str.rev s).

(** A name or a version as the CSV holds them: not empty, free of commas,
    quotes and line feeds (the character lines are split at), with no
    white space around. *)
Definition cleanField (s : string) : bool :=
  negb (String.eqb s "") && lacks comma s && lacks quote s &&
  lacks newline s && headOk s && lastOk s.

(** A row of the CSV: the name, the versions in quotes, the rest. *)
Definition renderRow (pkg : Pkg.t) (rest : string) : string :=
  (Pkg.name pkg ++ String comma (String quote
     (String.concat ", " (Pkg.compromisedVersions pkg)
      ++ String quote (String comma rest))))%string.

Definition renderCSV (header : string) (rows : list (Pkg.t * string))
  : string :=
  String.concat (String newline "")
    (header :: map (fun row => renderRow (fst row) (snd row)) rows).

Definition cleanRow (row : Pkg.t * string) : bool :=
  cleanField (Pkg.name (fst row)) &&
  forallb cleanField (Pkg.compromisedVersions (fst row)) &&
  lacks newline (snd row) && lastOk (snd row).

End Csv.

(** Every part pushed is trimmed and lacks [c], and so does [current]. *)
Definition stateLacks (c : ascii) (st : Csv.LineState) : Prop :=
  Forall (fun p => Csv.lacks c p = true /\ Str.trim p = p) (Csv.parts st) /\
  Csv.lacks c (Csv.current st) = true.

(** [nodeIn deps ancestors name info]: the walk of the mapping [deps]
    reaches the entry [name], with value [info], below the entries named
    [ancestors] (from the top down; none for an entry of [deps] itself).
    It goes below an entry when its [dependencies] field is truthy. *)
Inductive nodeIn : value -> list string -> string -> value -> Prop :=
| nodeIn_top deps es name info :
    entries deps = Ok es ->
    In (name, info) es ->
    nodeIn deps [] name info
| nodeIn_below deps es key parent nested ancestors name info :
    entries deps = Ok es ->
    In (key, parent) es ->
    prop parent "dependencies" = Ok nested ->
    truthy nested = true ->
    nodeIn nested ancestors name info ->
    nodeIn deps (key :: ancestors) name info.

(** [{"dependencies": {"a": {"version":"1.0.0",
                             "dependencies": {"X": {}}}}}]: a listed name
    without a version, below another package. *)
Definition versionlessBelow : value :=
  VObj [("dependencies",
         VObj [("a", VObj [("version", VStr "1.0.0");
                           ("dependencies", VObj [("X", VObj [])])])])].

(** A row the converter reads back: clean name and versions, and a rest
    that holds no line feed (it may end in white space, as the carriage
    return of a CRLF file). *)
Definition readableRow (row : Pkg.t * string) : bool :=
  Csv.cleanField (Pkg.name (fst row)) &&
  forallb Csv.cleanField (Pkg.compromisedVersions (fst row)) &&
  Csv.lacks Csv.newline (snd row).

(* ================================================================== *)
(** * Properties *)

(** ** The order on numbers *)

Lemma SFcompare_swap (x y : spec_float) :
  SFcompare y x = option_map CompOpp (SFcompare x y).
Proof.
  destruct x as [sx|sx| |sx mx ex], y as [sy|sy| |sy my ey];
    try destruct sx; try destruct sy; simpl; try reflexivity;
    rewrite (Z.compare_antisym ex ey);
    destruct (ex ?= ey)%Z; simpl; try reflexivity;
    change (Pos.compare_cont Eq my mx)
      with (Pos.compare_cont (CompOpp Eq) my mx);
    rewrite <- (Pos.compare_cont_antisym mx my Eq);
    try rewrite CompOpp_involutive; reflexivity.
Qed.

Lemma lt_asym (x y : Num.number) : Num.lt x y = true -> Num.lt y x = false.
Proof.
  unfold Num.lt, SFltb. rewrite (SFcompare_swap x y).
  destruct (SFcompare x y) as [[ | | ]|]; simpl; congruence.
Qed.

Lemma gt_lt (x y : Num.number) : Num.gt x y = Num.lt y x.
Proof. reflexivity. Qed.

Lemma lt_irrefl (x : Num.number) : Num.lt x x = false.
Proof.
  destruct (Num.lt x x) eqn:E; [|reflexivity].
  pose proof (lt_asym _ _ E). congruence.
Qed.

(** ** The comparison loop *)

Lemma part_missing (parts : list Num.number) (i : nat) :
  nth_error parts i = None -> part parts i = Num.zero.
Proof. unfold part. intros ->. reflexivity. Qed.

Lemma part_beyond (parts : list Num.number) (i : nat) :
  List.length parts <= i -> part parts i = Num.zero.
Proof. intros H. apply part_missing, nth_error_None, H. Qed.

Lemma compareLoop_values (steps i : nat) (p q : list Num.number) :
  compareLoop steps i p q = (-1)%Z \/
  compareLoop steps i p q = 0%Z \/
  compareLoop steps i p q = 1%Z.
Proof.
  revert i. induction steps as [|n IH]; intros i; simpl; auto.
  destruct (Num.gt _ _); auto. destruct (Num.lt _ _); auto.
Qed.

Lemma compareLoop_refl (steps i : nat) (p : list Num.number) :
  compareLoop steps i p p = 0%Z.
Proof.
  revert i. induction steps as [|n IH]; intros i; simpl; [reflexivity|].
  rewrite gt_lt, !lt_irrefl. apply IH.
Qed.

Lemma compareLoop_swap (steps i : nat) (p q : list Num.number) :
  compareLoop steps i p q = (- compareLoop steps i q p)%Z.
Proof.
  revert i. induction steps as [|n IH]; intros i; simpl; [reflexivity|].
  rewrite !gt_lt.
  destruct (Num.lt (part q i) (part p i)) eqn:E1.
  - rewrite (lt_asym _ _ E1). reflexivity.
  - destruct (Num.lt (part p i) (part q i)); [reflexivity | apply IH].
Qed.

(** Past the end of both lists every slot is [0] against [0]. *)
Lemma compareLoop_beyond (steps i : nat) (p q : list Num.number) :
  List.length p <= i -> List.length q <= i -> compareLoop steps i p q = 0%Z.
Proof.
  revert i. induction steps as [|n IH]; intros i Hp Hq; simpl; [reflexivity|].
  rewrite (part_beyond p i Hp), (part_beyond q i Hq).
  rewrite gt_lt, !lt_irrefl. apply IH; lia.
Qed.

(** So the loop may run longer than the longer list without effect. *)
Lemma compareLoop_longer (extra steps i : nat) (p q : list Num.number) :
  Nat.max (List.length p) (List.length q) <= i + steps ->
  compareLoop (steps + extra) i p q = compareLoop steps i p q.
Proof.
  revert i. induction steps as [|n IH]; intros i H; simpl.
  - apply compareLoop_beyond; lia.
  - destruct (Num.gt _ _); [reflexivity|].
    destruct (Num.lt _ _); [reflexivity|]. apply IH. lia.
Qed.

Lemma compareLoop_ext (steps i : nat) (p p' q q' : list Num.number) :
  (forall j, part p j = part p' j) ->
  (forall j, part q j = part q' j) ->
  compareLoop steps i p q = compareLoop steps i p' q'.
Proof.
  intros Hp Hq. revert i.
  induction steps as [|n IH]; intros i; simpl; [reflexivity|].
  rewrite (Hp i), (Hq i), IH. reflexivity.
Qed.

Lemma compareParts_bound (n : nat) (p q : list Num.number) :
  Nat.max (List.length p) (List.length q) <= n ->
  compareParts p q = compareLoop n 0 p q.
Proof.
  intros H. unfold compareParts.
  replace n with (Nat.max (List.length p) (List.length q)
                  + (n - Nat.max (List.length p) (List.length q))) by lia.
  symmetry. apply compareLoop_longer. lia.
Qed.

(** The result depends on the two lists through their slots only. *)
Lemma compareParts_ext (p p' q q' : list Num.number) :
  (forall j, part p j = part p' j) ->
  (forall j, part q j = part q' j) ->
  compareParts p q = compareParts p' q'.
Proof.
  intros Hp Hq.
  set (n := Nat.max (Nat.max (List.length p) (List.length q))
                    (Nat.max (List.length p') (List.length q'))).
  rewrite (compareParts_bound n p q) by lia.
  rewrite (compareParts_bound n p' q') by lia.
  apply compareLoop_ext; assumption.
Qed.

Lemma compareVersions_strings (a b : string) :
  compareVersions (VStr a) (VStr b) = Ok (compareStrings a b).
Proof. reflexivity. Qed.

Lemma compareStrings_ext (a a' b b' : string) :
  (forall i, slot a i = slot a' i) ->
  (forall i, slot b i = slot b' i) ->
  compareStrings a b = compareStrings a' b'.
Proof. intros Ha Hb. apply compareParts_ext; assumption. Qed.

(** ** Splitting at dots *)

Lemma split_nonempty (s : string) : Str.split s <> [].
Proof.
  induction s as [|c s IH]; simpl; [discriminate|].
  destruct (Ascii.eqb c Str.dot); [discriminate|].
  destruct (Str.split s); discriminate.
Qed.

Lemma split_app_dot (a c : string) :
  Str.split (a ++ String Str.dot c)%string = Str.split a ++ Str.split c.
Proof.
  induction a as [|x a IH]; simpl.
  - reflexivity.
  - rewrite IH. destruct (Ascii.eqb x Str.dot); [reflexivity|].
    pose proof (split_nonempty a) as Hne.
    destruct (Str.split a) as [|h t]; [congruence | reflexivity].
Qed.

(** A trailing [.0] fills a slot that reads [0] anyway. *)
Lemma slot_trailing_zero (a : string) (i : nat) :
  slot (a ++ ".0")%string i = slot a i.
Proof.
  unfold slot. change (a ++ ".0")%string with (a ++ String Str.dot "0")%string.
  rewrite split_app_dot, map_app. unfold part.
  destruct (Nat.lt_ge_cases i (List.length (map Number (Str.split a))))
    as [Hlt | Hge].
  - rewrite nth_error_app1 by exact Hlt. reflexivity.
  - rewrite nth_error_app2 by exact Hge.
    rewrite (proj2 (nth_error_None (map Number (Str.split a)) i) Hge).
    destruct (i - List.length (map Number (Str.split a))) as [|[|k]];
      reflexivity.
Qed.

(* ================================================================== *)
(** ** The version comparator *)

(** C8.  Comparing a version string with itself gives 0, and swapping the
    operands negates the result. *)
Theorem compareVersions_refl_antisym (a b : string) :
  compareVersions (VStr a) (VStr a) = Ok 0%Z /\
  exists r, compareVersions (VStr a) (VStr b) = Ok r /\
            compareVersions (VStr b) (VStr a) = Ok (- r)%Z.
Proof.
  split.
  - rewrite compareVersions_strings. f_equal. apply compareLoop_refl.
  - exists (compareStrings a b). rewrite !compareVersions_strings.
    split; [reflexivity|]. f_equal. unfold compareStrings, compareParts.
    rewrite (Nat.max_comm (List.length (map Number (Str.split b)))).
    rewrite (compareLoop_swap _ _ (map Number (Str.split a))).
    now rewrite Z.opp_involutive.
Qed.

(* ================================================================== *)
(** ** The severity classifier *)

Lemma string_equals_true (s : string) (v : value) :
  string_equals s v = true <-> v = VStr s.
Proof.
  destruct v; simpl; try (split; [discriminate | intros H; discriminate H]).
  rewrite String.eqb_eq. split; [intros -> | intros [= ->]]; reflexivity.
Qed.

Lemma find_none_iff (pkgs : list Pkg.t) (packageName : value) :
  find (fun pkg => string_equals (Pkg.name pkg) packageName) pkgs = None <->
  forall pkg, In pkg pkgs -> VStr (Pkg.name pkg) <> packageName.
Proof.
  induction pkgs as [|p pkgs IH]; simpl.
  - split; [intros _ pkg [] | reflexivity].
  - destruct (string_equals (Pkg.name p) packageName) eqn:E.
    + apply string_equals_true in E. split; [discriminate|].
      intros H. exfalso. apply (H p); auto.
    + rewrite IH. split.
      * intros H pkg [<- | Hin]; [|auto].
        intros Heq. symmetry in Heq. apply string_equals_true in Heq.
        congruence.
      * intros H pkg Hin. apply H. auto.
Qed.

Lemma find_first_named (data : Dataset) (n : string) (pkg : Pkg.t) :
  first_named data n pkg ->
  find (fun q => string_equals (Pkg.name q) (VStr n)) (compromisedPackages data)
  = Some pkg.
Proof.
  intros (before & after & -> & Hn & Hb).
  induction Hb as [|q before Hq _ IH]; simpl.
  - rewrite Hn. rewrite String.eqb_refl. reflexivity.
  - destruct (String.eqb_spec (Pkg.name q) n); [contradiction | exact IH].
Qed.

Lemma exact_member_iff (cvs : list string) (v : string) :
  existsb (fun c => string_equals c (VStr v)) cvs = true <-> In v cvs.
Proof.
  rewrite existsb_exists. split.
  - intros (c & Hin & Hc). apply string_equals_true in Hc.
    injection Hc as ->. exact Hin.
  - intros Hin. exists v. split; [exact Hin|]. now apply string_equals_true.
Qed.

Lemma isHigherThan_string (v c : string) :
  isHigherThan (VStr v) c = (compareStrings v c >? 0)%Z.
Proof. reflexivity. Qed.

Lemma higher_iff (cvs : list string) (v : string) :
  existsb (isHigherThan (VStr v)) cvs = true <->
  exists c, In c cvs /\ (0 < compareStrings v c)%Z.
Proof.
  rewrite existsb_exists. split; intros (c & Hin & Hc); exists c; split; auto.
  - rewrite isHigherThan_string in Hc. lia.
  - rewrite isHigherThan_string. lia.
Qed.

(** Whether some element passes a test does not depend on the order. *)
Lemma existsb_Permutation {A : Type} (f : A -> bool) (l l' : list A) :
  Permutation l l' -> existsb f l = existsb f l'.
Proof.
  induction 1 as [|x l l' _ IH|x y l|l l' l'' _ IH1 _ IH2]; simpl.
  - reflexivity.
  - now rewrite IH.
  - destruct (f x), (f y); reflexivity.
  - congruence.
Qed.

(** C3.  [checkPackage] returns not-found exactly when no entry of the
    dataset has the queried name; and when the version is a member of the
    compromised versions of the entry matched for the name, it returns
    severity critical with [exactMatch] true. *)
Theorem checkPackage_lookup (data : Dataset) (packageName version : value)
    (n v : string) (pkg : Pkg.t) :
  (checkPackage data packageName version = None <->
   forall q, In q (compromisedPackages data) -> VStr (Pkg.name q) <> packageName) /\
  (first_named data n pkg ->
   In v (Pkg.compromisedVersions pkg) ->
   checkPackage data (VStr n) (VStr v)
   = Some (Threat.make critical (Pkg.compromisedVersions pkg) (VStr v) true)).
Proof.
  split.
  - rewrite <- find_none_iff. unfold checkPackage.
    destruct (find _ _) as [q|]; [|tauto].
    split; [|discriminate].
    destruct (existsb _ _); [discriminate|].
    destruct (existsb _ _); discriminate.
  - intros Hfirst Hin. unfold checkPackage.
    rewrite (find_first_named _ _ _ Hfirst).
    rewrite (proj2 (exact_member_iff _ _) Hin). reflexivity.
Qed.

Lemma first_named_sample : first_named Sample.data "X" (Pkg.make "X" ["1.0.0"; "3.0.0"]).
Proof. exists [], []. repeat split. constructor. Qed.

Lemma checkPackage_lookup_witness :
  checkPackage Sample.data (VStr "X") (VStr "3.0.0")
  = Some (Threat.make critical ["1.0.0"; "3.0.0"] (VStr "3.0.0") true).
Proof.
  apply (proj2 (checkPackage_lookup Sample.data VNull VNull "X" "3.0.0"
                  (Pkg.make "X" ["1.0.0"; "3.0.0"]))).
  - exact first_named_sample.
  - simpl. auto.
Defined.

(** C1.  For a listed name and a version string that is not one of the
    compromised versions of its entry, [checkPackage] returns high with
    [exactMatch] false when the comparator puts the version above at least
    one compromised version, and warning with [exactMatch] false otherwise;
    listing the compromised versions in another order gives the same
    severity and [exactMatch]; and the call yields one severity only. *)
Theorem checkPackage_high_or_warning (data : Dataset) (n v : string)
    (pkg : Pkg.t) :
  first_named data n pkg ->
  ~ In v (Pkg.compromisedVersions pkg) ->
  ((exists c, In c (Pkg.compromisedVersions pkg) /\ (0 < compareStrings v c)%Z) ->
   checkPackage data (VStr n) (VStr v)
   = Some (Threat.make high (Pkg.compromisedVersions pkg) (VStr v) false)) /\
  (~ (exists c, In c (Pkg.compromisedVersions pkg) /\ (0 < compareStrings v c)%Z) ->
   checkPackage data (VStr n) (VStr v)
   = Some (Threat.make warning (Pkg.compromisedVersions pkg) (VStr v) false)) /\
  (forall data' pkg',
      first_named data' n pkg' ->
      Permutation (Pkg.compromisedVersions pkg) (Pkg.compromisedVersions pkg') ->
      option_map Threat.severity (checkPackage data' (VStr n) (VStr v))
      = option_map Threat.severity (checkPackage data (VStr n) (VStr v)) /\
      option_map Threat.exactMatch (checkPackage data' (VStr n) (VStr v))
      = option_map Threat.exactMatch (checkPackage data (VStr n) (VStr v))) /\
  (exists s, forall s',
      option_map Threat.severity (checkPackage data (VStr n) (VStr v)) = Some s'
      <-> s' = s).
Proof.
  intros Hfirst Hnot.
  assert (Hex : existsb (fun c => string_equals c (VStr v))
                  (Pkg.compromisedVersions pkg) = false).
  { destruct (existsb _ _) eqn:E; [|reflexivity].
    apply exact_member_iff in E. contradiction. }
  assert (Hcp : checkPackage data (VStr n) (VStr v)
          = if existsb (isHigherThan (VStr v)) (Pkg.compromisedVersions pkg)
            then Some (Threat.make high (Pkg.compromisedVersions pkg) (VStr v) false)
            else Some (Threat.make warning (Pkg.compromisedVersions pkg) (VStr v) false)).
  { unfold checkPackage. rewrite (find_first_named _ _ _ Hfirst), Hex.
    reflexivity. }
  split; [|split; [|split]].
  - intros H. apply higher_iff in H. rewrite Hcp, H. reflexivity.
  - intros H. rewrite Hcp.
    destruct (existsb (isHigherThan (VStr v)) _) eqn:E; [|reflexivity].
    apply higher_iff in E. contradiction.
  - intros data' pkg' Hfirst' Hperm. rewrite Hcp.
    unfold checkPackage. rewrite (find_first_named _ _ _ Hfirst').
    rewrite <- (existsb_Permutation _ _ _ Hperm), Hex.
    rewrite <- (existsb_Permutation _ _ _ Hperm).
    destruct (existsb (isHigherThan (VStr v)) _); split; reflexivity.
  - rewrite Hcp. destruct (existsb (isHigherThan (VStr v)) _); simpl.
    + exists high. intros s'. split; [intros [= <-] | intros ->]; reflexivity.
    + exists warning. intros s'. split; [intros [= <-] | intros ->]; reflexivity.
Qed.

Lemma checkPackage_high_or_warning_witness :
  checkPackage Sample.data (VStr "X") (VStr "2.0.0")
  = Some (Threat.make high ["1.0.0"; "3.0.0"] (VStr "2.0.0") false).
Proof.
  apply (proj1 (checkPackage_high_or_warning Sample.data "X" "2.0.0"
                  (Pkg.make "X" ["1.0.0"; "3.0.0"]) first_named_sample
                  ltac:(simpl; intros [H|[H|[]]]; discriminate H))).
  exists "1.0.0". split; [simpl; auto | vm_compute; reflexivity].
Defined.

(** C2, as the specification states it, fails: with compromised versions
    1.0.0 and 3.0.0 the installed 2.0.0 is classified high although it is
    below 3.0.0, and so is not classified warning although it is neither a
    member nor above all of them. *)
Lemma checkPackage_high_below_a_compromised_version :
  checkPackage Sample.data (VStr "X") (VStr "2.0.0")
  = Some (Threat.make high ["1.0.0"; "3.0.0"] (VStr "2.0.0") false) /\
  compareVersions (VStr "2.0.0") (VStr "3.0.0") = Ok (-1)%Z.
Proof. split; vm_compute; reflexivity. Qed.

(** C2, amended.  For a listed name and a version string, [checkPackage]
    returns a severity; it is high exactly when the version is no member of
    the entry's compromised versions and the comparator puts it above at
    least one of them, and warning exactly when it is no member and above
    none of them. *)
Theorem checkPackage_severity (data : Dataset) (n v : string) (pkg : Pkg.t) :
  first_named data n pkg ->
  exists t,
    checkPackage data (VStr n) (VStr v) = Some t /\
    (Threat.severity t = high <->
     ~ In v (Pkg.compromisedVersions pkg) /\
     exists c, In c (Pkg.compromisedVersions pkg) /\ (0 < compareStrings v c)%Z) /\
    (Threat.severity t = warning <->
     ~ In v (Pkg.compromisedVersions pkg) /\
     ~ exists c, In c (Pkg.compromisedVersions pkg) /\ (0 < compareStrings v c)%Z).
Proof.
  intros Hfirst. unfold checkPackage.
  rewrite (find_first_named _ _ _ Hfirst).
  destruct (existsb (fun c => string_equals c (VStr v)) _) eqn:Ex.
  - apply exact_member_iff in Ex. eexists. split; [reflexivity|]. simpl.
    split; (split; [discriminate | intros [H _]; contradiction]).
  - assert (Hnot : ~ In v (Pkg.compromisedVersions pkg)).
    { intros H. apply exact_member_iff in H. congruence. }
    destruct (existsb (isHigherThan (VStr v)) _) eqn:Eh;
      (eexists; split; [reflexivity|]); simpl.
    + apply higher_iff in Eh. split.
      * split; [auto | reflexivity].
      * split; [discriminate | intros [_ H]; contradiction].
    + assert (Hno : ~ exists c, In c (Pkg.compromisedVersions pkg) /\
                                (0 < compareStrings v c)%Z).
      { intros H. apply higher_iff in H. congruence. }
      split.
      * split; [discriminate | intros [_ H]; contradiction].
      * split; [auto | reflexivity].
Qed.

Lemma checkPackage_severity_witness :
  exists t,
    checkPackage Sample.data (VStr "X") (VStr "0.0.1") = Some t /\
    (Threat.severity t = high <->
     ~ In "0.0.1" ["1.0.0"; "3.0.0"] /\
     exists c, In c ["1.0.0"; "3.0.0"] /\ (0 < compareStrings "0.0.1" c)%Z) /\
    (Threat.severity t = warning <->
     ~ In "0.0.1" ["1.0.0"; "3.0.0"] /\
     ~ exists c, In c ["1.0.0"; "3.0.0"] /\ (0 < compareStrings "0.0.1" c)%Z).
Proof.
  exact (checkPackage_severity Sample.data "X" "0.0.1"
           (Pkg.make "X" ["1.0.0"; "3.0.0"]) first_named_sample).
Defined.

(* ================================================================== *)
(** ** The scan *)

Lemma fold_analyzeDependency (data : Dataset) (dependencies : list Dep.t)
    (results : Results) :
  let r := fold_left (analyzeDependency data) dependencies results in
  safe r = safe results + List.length (filter (notFound data) dependencies) /\
  warnings r = warnings results /\
  threats r = threats results ++ flat_map (findingOf data) dependencies /\
  allPackages r = allPackages results ++ dependencies.
Proof.
  revert results. induction dependencies as [|dep deps IH]; intros results.
  - simpl. rewrite !app_nil_r. repeat split. lia.
  - cbn [fold_left filter flat_map].
    destruct (IH (analyzeDependency data results dep)) as (Hs & Hw & Ht & Ha).
    cbv zeta. rewrite Hs, Hw, Ht, Ha.
    unfold analyzeDependency, findingOf, notFound.
    destruct (checkPackage data (Dep.name dep) (Dep.version dep)); simpl;
      rewrite <- ?app_assoc; repeat split; simpl; lia.
Qed.

Lemma findings_and_safe (data : Dataset) (dependencies : list Dep.t) :
  List.length (filter (notFound data) dependencies)
  + List.length (flat_map (findingOf data) dependencies)
  = List.length dependencies.
Proof.
  induction dependencies as [|dep deps IH]; simpl; [reflexivity|].
  rewrite length_app. unfold findingOf at 1, notFound at 1.
  destruct (checkPackage data (Dep.name dep) (Dep.version dep)); simpl; lia.
Qed.

(** C4.  Whatever the dependencies and the dataset, the results of the
    scan satisfy [safe + threats.length = allPackages.length]: every
    dependency is recorded once in [allPackages], in input order, and
    counts once, as safe when [checkPackage] returns nothing and as one
    appended finding otherwise, the findings being in input order. *)
Theorem scan_counts (data : Dataset) (dependencies : list Dep.t) :
  safe (scan data dependencies) + List.length (threats (scan data dependencies))
  = List.length (allPackages (scan data dependencies)) /\
  allPackages (scan data dependencies) = dependencies /\
  threats (scan data dependencies) = flat_map (findingOf data) dependencies /\
  safe (scan data dependencies)
  = List.length (filter (notFound data) dependencies) /\
  (forall dep,
      List.length (findingOf data dep) + (if notFound data dep then 1 else 0) = 1 /\
      (notFound data dep = true <->
       checkPackage data (Dep.name dep) (Dep.version dep) = None)).
Proof.
  destruct (fold_analyzeDependency data dependencies
              {| safe := 0; warnings := 0; threats := []; allPackages := [] |})
    as (Hs & _ & Ht & Ha).
  fold (scan data dependencies) in Hs, Ht, Ha. simpl in Hs, Ht, Ha.
  rewrite Hs, Ht, Ha.
  split; [apply findings_and_safe|]. repeat split; try reflexivity.
  - unfold findingOf, notFound.
    destruct (checkPackage data (Dep.name dep) (Dep.version dep)); reflexivity.
  - unfold notFound.
    destruct (checkPackage data (Dep.name dep) (Dep.version dep));
      [discriminate | reflexivity].
  - unfold notFound. intros ->. reflexivity.
Qed.

(* ================================================================== *)
(** ** Extraction: the flat map of lockfile versions 2 and 3 *)

Lemma prop_field (v : value) (k : string) :
  nullish v = false -> prop v k = Ok (field v k).
Proof. destruct v; simpl; congruence. Qed.

Lemma prop_Ok_field (v x : value) (k : string) :
  prop v k = Ok x -> nullish v = false /\ x = field v k.
Proof. destruct v; simpl; intros [= <-] || discriminate; auto. Qed.

Lemma extractPackage_flatEntry (key : string) (pkg : value)
    (dependencies : list Dep.t) :
  (key <> "" -> nullish pkg = false) ->
  extractPackage (key, pkg) dependencies
  = Ok (dependencies ++ flatEntry (key, pkg)).
Proof.
  intros H. unfold extractPackage, flatEntry. cbn [fst snd].
  destruct (String.eqb_spec key "") as [->|Hne].
  - now rewrite app_nil_r.
  - rewrite !(prop_field pkg) by auto. cbn [bind]. unfold or_else.
    destruct (_ && _); [reflexivity | now rewrite app_nil_r].
Qed.

Lemma forEach_extractPackage (packages : list (string * value))
    (dependencies : list Dep.t) :
  Forall (fun e => fst e <> "" -> nullish (snd e) = false) packages ->
  forEach packages extractPackage dependencies
  = Ok (dependencies ++ flat_map flatEntry packages).
Proof.
  intros H. revert dependencies.
  induction H as [|[key pkg] packages Hx _ IH]; intros dependencies;
    cbn [forEach flat_map].
  - now rewrite app_nil_r.
  - rewrite (extractPackage_flatEntry key pkg dependencies Hx). cbn [bind].
    rewrite IH, app_assoc. reflexivity.
Qed.

Lemma flatEntry_spec (packages : list (string * value)) (d : Dep.t) :
  In d (flat_map flatEntry packages) <->
  exists key pkg,
    In (key, pkg) packages /\ key <> "" /\
    d = Dep.make (or_else (field pkg "name") (VStr (Str.strip_node_modules key)))
                 (field pkg "version") key /\
    truthy (Dep.name d) = true /\ truthy (Dep.version d) = true.
Proof.
  rewrite in_flat_map. split.
  - intros ([key pkg] & Hin & Hd). exists key, pkg.
    unfold flatEntry in Hd. cbn [fst snd] in Hd.
    destruct (String.eqb_spec key ""); [destruct Hd|].
    fold (or_else (field pkg "name") (VStr (Str.strip_node_modules key))) in Hd.
    destruct (truthy (or_else _ _) && truthy (field pkg "version")) eqn:E;
      [|destruct Hd].
    destruct Hd as [<-|[]]. apply andb_prop in E. cbn. tauto.
  - intros (key & pkg & Hin & Hne & -> & Hn & Hv). exists (key, pkg).
    split; [exact Hin|]. unfold flatEntry. cbn [fst snd].
    destruct (String.eqb_spec key ""); [contradiction|].
    fold (or_else (field pkg "name") (VStr (Str.strip_node_modules key))).
    cbn in Hn, Hv. rewrite Hn, Hv. left. reflexivity.
Qed.

(** ** Extraction: the tree of lockfile version 1 *)

Lemma forEach_accumulate {A B : Type} (f : A -> list B -> res (list B))
    (xs : list A) :
  (forall x, In x xs ->
     forall s, f x s = (r <- f x [] ;; Ok (s ++ r))) ->
  forall s, forEach xs f s = (r <- forEach xs f [] ;; Ok (s ++ r)).
Proof.
  induction xs as [|x xs IH]; intros Hf s; simpl.
  - now rewrite app_nil_r.
  - rewrite (Hf x (or_introl eq_refl) s).
    assert (IH' := IH (fun y Hy => Hf y (or_intror Hy))).
    destruct (f x []) as [r| |]; simpl; try reflexivity.
    rewrite (IH' (s ++ r)), (IH' r).
    destruct (forEach xs f []) as [r'| |]; simpl; try reflexivity.
    now rewrite app_assoc.
Qed.

(** The walk only appends to [result]. *)
Lemma extractDependenciesRecursive_accumulate (fuel : nat) :
  forall deps result prefix,
    extractDependenciesRecursive fuel deps result prefix
    = (r <- extractDependenciesRecursive fuel deps [] prefix ;; Ok (result ++ r)).
Proof.
  induction fuel as [|fuel IH]; intros deps result prefix; simpl.
  - reflexivity.
  - destruct (entries deps) as [es| |]; simpl; try reflexivity.
    apply forEach_accumulate. intros [name info] _ s.
    destruct (prop info "version") as [version| |]; simpl; try reflexivity.
    destruct (prop info "dependencies") as [nested| |]; simpl; try reflexivity.
    destruct (truthy nested).
    + rewrite (IH nested (s ++ [_])), (IH nested [_]).
      destruct (extractDependenciesRecursive fuel nested [] _); simpl;
        try reflexivity.
      now rewrite <- app_assoc.
    + reflexivity.
Qed.

(** C6.  In a document whose [packages] field is a mapping of entries (none
    of them [null]), extraction lists the mapping in order: the entry keyed
    by the empty string gives nothing; every other entry is named by its
    [name] field when present and else by its key less one leading
    [node_modules/], is kept only when name and version are both present,
    and carries its key as path.  (Present: the read gives a truthy value,
    as any non-empty string is.)  These come first in the result, and are
    all of it when there is no [dependencies] tree.  On the sample document
    the result is the one dependency foo at 1.0.0. *)
Theorem extractDependencies_packages (packageLock : value)
    (packages : list (string * value)) :
  prop packageLock "packages" = Ok (VObj packages) ->
  Forall (fun e => fst e <> "" -> nullish (snd e) = false) packages ->
  (truthy (field packageLock "dependencies") = false ->
   extractDependencies packageLock = Ok (flat_map flatEntry packages)) /\
  (forall dependencies,
      extractDependencies packageLock = Ok dependencies ->
      exists tree, dependencies = flat_map flatEntry packages ++ tree) /\
  (forall d,
      In d (flat_map flatEntry packages) <->
      exists key pkg,
        In (key, pkg) packages /\ key <> "" /\
        d = Dep.make
              (or_else (field pkg "name") (VStr (Str.strip_node_modules key)))
              (field pkg "version") key /\
        truthy (Dep.name d) = true /\ truthy (Dep.version d) = true) /\
  extractDependencies Sample.flat
  = Ok [Dep.make (VStr "foo") (VStr "1.0.0") "node_modules/foo"].
Proof.
  intros Hp Hok.
  assert (Hnn : nullish packageLock = false)
    by (apply (prop_Ok_field _ _ _ Hp)).
  assert (Hex : extractDependencies packageLock
          = if truthy (field packageLock "dependencies")
            then extractDependenciesRecursive (S (depth packageLock))
                   (field packageLock "dependencies")
                   (flat_map flatEntry packages) ""
            else Ok (flat_map flatEntry packages)).
  { unfold extractDependencies. rewrite Hp. cbn [bind truthy entries].
    rewrite (forEach_extractPackage packages [] Hok). cbn [bind app].
    rewrite (prop_field packageLock "dependencies" Hnn). reflexivity. }
  split; [|split; [|split]].
  - intros Hd. rewrite Hex, Hd. reflexivity.
  - intros dependencies. rewrite Hex.
    destruct (truthy (field packageLock "dependencies")).
    + rewrite extractDependenciesRecursive_accumulate.
      destruct (extractDependenciesRecursive _ _ [] "") as [tree| |];
        simpl; try discriminate.
      intros [= <-]. now exists tree.
    + intros [= <-]. exists []. now rewrite app_nil_r.
  - apply flatEntry_spec.
  - vm_compute. reflexivity.
Qed.

Lemma extractDependencies_packages_witness :
  extractDependencies Sample.flat
  = Ok (flat_map flatEntry
          [("", VObj [("name", VStr "root"); ("version", VStr "1.0.0")]);
           ("node_modules/foo", VObj [("version", VStr "1.0.0")])]).
Proof.
  apply (proj1 (extractDependencies_packages Sample.flat
                  [("", VObj [("name", VStr "root"); ("version", VStr "1.0.0")]);
                   ("node_modules/foo", VObj [("version", VStr "1.0.0")])]
                  eq_refl
                  ltac:(repeat constructor))).
  reflexivity.
Defined.

Lemma append_assoc (a b c : string) :
  ((a ++ b) ++ c = a ++ (b ++ c))%string.
Proof. induction a as [|x a IH]; simpl; [reflexivity | now rewrite IH]. Qed.

Lemma append_empty (a : string) : (a ++ "" = a)%string.
Proof. induction a as [|x a IH]; simpl; [reflexivity | now rewrite IH]. Qed.

Lemma prefixOf_cons (a : string) (ancestors : list string) :
  prefixOf (a :: ancestors) = ((a ++ " > ") ++ prefixOf ancestors)%string.
Proof.
  unfold prefixOf. destruct ancestors as [|b rest].
  - cbn [map String.concat]. symmetry. apply append_empty.
  - reflexivity.
Qed.

(** One level down, the prefix grows by the name and the separator ... *)
Lemma prefixOf_snoc (ancestors : list string) (name : string) :
  prefixOf (ancestors ++ [name])
  = (prefixOf ancestors ++ name ++ " > ")%string.
Proof.
  induction ancestors as [|a ancestors IH].
  - reflexivity.
  - change ((a :: ancestors) ++ [name]) with (a :: (ancestors ++ [name])).
    rewrite !prefixOf_cons, IH, !append_assoc. reflexivity.
Qed.

(** ... and the path of a node is the prefix followed by its name. *)
Lemma joinPath_snoc (ancestors : list string) (name : string) :
  joinPath (ancestors ++ [name]) = (prefixOf ancestors ++ name)%string.
Proof.
  induction ancestors as [|a ancestors IH].
  - reflexivity.
  - change ((a :: ancestors) ++ [name]) with (a :: (ancestors ++ [name])).
    rewrite prefixOf_cons, append_assoc, <- IH. unfold joinPath.
    cbn [String.concat].
    destruct (ancestors ++ [name]) eqn:E.
    + destruct ancestors; discriminate.
    + now rewrite append_assoc.
Qed.

(** *** Nesting depth *)

Lemma depth_fields (fields : list (string * value)) (k : string) (v : value) :
  In (k, v) fields -> depth v < depth (VObj fields).
Proof.
  cbn [depth]. induction fields as [|[k' v'] fields IH]; simpl; [tauto|].
  intros [[= -> ->] | Hin]; [lia | specialize (IH Hin); lia].
Qed.

Lemma depth_items (items : list value) (i : nat) (k : string) (v : value) :
  In (k, v) (indexed i items) -> depth v < depth (VArr items).
Proof.
  cbn [depth]. revert i.
  induction items as [|x items IH]; intros i; simpl; [tauto|].
  intros [[= _ ->] | Hin]; [lia | specialize (IH _ Hin); lia].
Qed.

Lemma depth_chars (s : string) (i : nat) (k : string) (v : value) :
  In (k, v) (indexed i (chars s)) -> depth v = 0.
Proof.
  revert i. induction s as [|c s IH]; intros i; simpl; [tauto|].
  intros [[= _ <-] | Hin]; [reflexivity | exact (IH _ Hin)].
Qed.

Lemma depth_entries (deps : value) (es : list (string * value))
    (k : string) (info : value) :
  entries deps = Ok es -> In (k, info) es -> depth info <= depth deps.
Proof.
  destruct deps; simpl; try discriminate; intros [= <-] Hin.
  - destruct Hin.
  - destruct Hin.
  - rewrite (depth_chars _ _ _ _ Hin). lia.
  - apply Nat.lt_le_incl. exact (depth_items _ _ _ _ Hin).
  - apply Nat.lt_le_incl. exact (depth_fields _ _ _ Hin).
Qed.

Lemma lookup_truthy (k : string) (fields : list (string * value)) :
  truthy (lookup k fields) = true -> In (k, lookup k fields) fields.
Proof.
  induction fields as [|[k' v] fields IH]; simpl; [discriminate|].
  destruct (String.eqb_spec k k') as [->|Hne]; [now left | auto].
Qed.

Lemma depth_prop (info nested : value) (k : string) :
  prop info k = Ok nested -> truthy nested = true -> depth nested < depth info.
Proof.
  destruct info; simpl; try discriminate; intros [= <-]; try discriminate.
  intros H. exact (depth_fields _ _ _ (lookup_truthy _ _ H)).
Qed.

(** *** Fuel

    The fuel of the model bounds the nesting of the recursive calls.  More
    fuel than the value is deep is always enough, and the result does not
    depend on how much more. *)

Lemma forEach_ext {A S : Type} (f g : A -> S -> res S) (xs : list A) :
  (forall x, In x xs -> forall s, f x s = g x s) ->
  forall s, forEach xs f s = forEach xs g s.
Proof.
  induction xs as [|x xs IH]; intros H s; cbn [forEach]; [reflexivity|].
  rewrite (H x (or_introl eq_refl) s).
  destruct (g x s); cbn [bind]; try reflexivity.
  apply IH. intros y Hy. apply H. now right.
Qed.

Lemma forEach_fuel {A S : Type} (f : A -> S -> res S) (xs : list A) :
  (forall x, In x xs -> forall s, f x s <> OutOfFuel) ->
  forall s, forEach xs f s <> OutOfFuel.
Proof.
  induction xs as [|x xs IH]; intros H s; cbn [forEach]; [discriminate|].
  pose proof (H x (or_introl eq_refl) s) as Hx.
  destruct (f x s); cbn [bind]; try congruence.
  apply IH. intros y Hy. apply H. now right.
Qed.

Lemma prop_fuel (v : value) (k : string) : prop v k <> OutOfFuel.
Proof. destruct v; discriminate. Qed.

Lemma extractDependenciesRecursive_enough (fuel : nat) :
  forall deps result prefix,
    depth deps < fuel ->
    extractDependenciesRecursive fuel deps result prefix <> OutOfFuel.
Proof.
  induction fuel as [|fuel IH]; intros deps result prefix Hfuel; [lia|].
  cbn [extractDependenciesRecursive].
  destruct (entries deps) as [es| |] eqn:Hes; cbn [bind]; try discriminate.
  - apply forEach_fuel. intros [name info] Hin s.
    pose proof (depth_entries _ _ _ _ Hes Hin) as Hinfo.
    destruct (prop info "version") as [version| |] eqn:Hv; cbn [bind];
      [|discriminate|exact (False_ind _ (prop_fuel _ _ Hv))].
    destruct (prop info "dependencies") as [nested| |] eqn:Hn; cbn [bind];
      [|discriminate|exact (False_ind _ (prop_fuel _ _ Hn))].
    destruct (truthy nested) eqn:Ht; [|discriminate].
    apply IH. pose proof (depth_prop _ _ _ Hn Ht). lia.
  - destruct deps; discriminate.
Qed.

Lemma extractDependenciesRecursive_fuel (fuel : nat) :
  forall fuel' deps result prefix,
    depth deps < fuel -> depth deps < fuel' ->
    extractDependenciesRecursive fuel deps result prefix
    = extractDependenciesRecursive fuel' deps result prefix.
Proof.
  induction fuel as [|fuel IH];
    intros [|fuel'] deps result prefix Hfuel Hfuel'; try lia.
  cbn [extractDependenciesRecursive].
  destruct (entries deps) as [es| |] eqn:Hes; cbn [bind]; try reflexivity.
  apply forEach_ext. intros [name info] Hin s.
  pose proof (depth_entries _ _ _ _ Hes Hin) as Hinfo.
  destruct (prop info "version") as [version| |]; cbn [bind]; try reflexivity.
  destruct (prop info "dependencies") as [nested| |] eqn:Hn; cbn [bind];
    try reflexivity.
  destruct (truthy nested) eqn:Ht; [|reflexivity].
  pose proof (depth_prop _ _ _ Hn Ht). apply IH; lia.
Qed.

(** [extractDependencies] gives its walk fuel enough: it returns or throws. *)
Lemma extractDependencies_returns_or_throws (packageLock : value) :
  extractDependencies packageLock <> OutOfFuel.
Proof.
  unfold extractDependencies.
  destruct (prop packageLock "packages") as [packages| |] eqn:Hp; cbn [bind];
    [|discriminate|exact (False_ind _ (prop_fuel _ _ Hp))].
  assert (Hflat : forall es s, forEach es extractPackage s <> OutOfFuel).
  { intros es s. apply forEach_fuel. intros [key pkg] _ s'.
    unfold extractPackage. destruct (String.eqb key ""); [discriminate|].
    destruct (prop pkg "name") eqn:E1; cbn [bind]; try discriminate;
      [|exact (False_ind _ (prop_fuel _ _ E1))].
    destruct (prop pkg "version") eqn:E2; cbn [bind]; try discriminate;
      [|exact (False_ind _ (prop_fuel _ _ E2))].
    destruct (_ && _); discriminate. }
  assert (Htree : forall s,
             (deps <- prop packageLock "dependencies" ;;
              if truthy deps
              then extractDependenciesRecursive (S (depth packageLock)) deps s ""
              else Ok s) <> OutOfFuel).
  { intros s.
    destruct (prop packageLock "dependencies") as [deps| |] eqn:Hd; cbn [bind];
      [|discriminate|exact (False_ind _ (prop_fuel _ _ Hd))].
    destruct (truthy deps) eqn:Ht; [|discriminate].
    apply extractDependenciesRecursive_enough.
    pose proof (depth_prop _ _ _ Hd Ht). lia. }
  destruct (truthy packages).
  - destruct (entries packages) as [es| |] eqn:He; cbn [bind].
    + pose proof (Hflat es []) as Hf.
      destruct (forEach es extractPackage []); cbn [bind];
        [apply Htree | discriminate | congruence].
    + discriminate.
    + destruct packages; discriminate.
  - cbn [bind]. apply Htree.
Qed.

(** *** The walk lists the tree parent first *)

Lemma extractDependenciesRecursive_represents (fuel : nat) :
  forall deps forest,
    represents deps forest ->
    depth deps < fuel ->
    forall result ancestors,
      extractDependenciesRecursive fuel deps result (prefixOf ancestors)
      = Ok (result ++ preorder ancestors forest).
Proof.
  induction fuel as [|fuel IH]; intros deps forest Hrep Hfuel result ancestors;
    [lia|].
  destruct Hrep as [deps es forest Hes Hall].
  cbn [extractDependenciesRecursive]. rewrite Hes. cbn [bind].
  assert (Hdepth : forall k info, In (k, info) es -> depth info <= depth deps)
    by (intros k info; apply depth_entries; exact Hes).
  clear Hes. revert result.
  induction Hall as [|[name info] [name' t] es forest [Hname Hnode] _ IHall];
    intros result.
  - cbn. now rewrite app_nil_r.
  - cbn [fst snd] in Hname, Hnode. subst name'.
    assert (Hinfo : depth info <= depth deps)
      by (apply (Hdepth name); now left).
    cbn [forEach preorder flat_map fst snd].
    fold (preorder ancestors forest).
    rewrite app_assoc, <- IHall by (intros k i Hin; apply (Hdepth k); now right).
    inversion Hnode as [i v nested Hv Hn Ht | i v nested children Hv Hn Ht Hch];
      subst; rewrite Hv, Hn; cbn [bind]; rewrite Ht.
    + cbn [bind visit flat_map]. rewrite joinPath_snoc. reflexivity.
    + rewrite <- prefixOf_snoc.
      rewrite (IH nested children Hch).
      * cbn [bind visit]. rewrite joinPath_snoc, <- app_assoc. reflexivity.
      * pose proof (depth_prop _ _ _ Hn Ht). lia.
Qed.

Lemma extractDependencies_tree (packageLock deps : value)
    (forest : list (string * Tree)) :
  represents deps forest ->
  prop packageLock "dependencies" = Ok deps ->
  truthy deps = true ->
  truthy (field packageLock "packages") = false ->
  extractDependencies packageLock = Ok (preorder [] forest).
Proof.
  intros Hrep Hd Ht Hp.
  destruct (prop_Ok_field _ _ _ Hd) as [Hnn _].
  unfold extractDependencies.
  rewrite (prop_field packageLock "packages" Hnn). cbn [bind].
  rewrite Hp, Hd. cbn [bind]. rewrite Ht.
  apply (extractDependenciesRecursive_represents _ deps forest Hrep
           (Nat.lt_lt_succ_r _ _ (depth_prop _ _ _ Hd Ht)) [] []).
Qed.

(** C7.  On a v1 [dependencies] mapping the walk lists the tree it spells
    depth first, parent before children, one Dependency per node: named by
    the node's key, with the node's version, its path the names of its
    ancestors and its own joined by [" > "] (the key alone at the root).
    The result follows whatever was extracted before; for a document with
    this tree and no [packages] it is the whole result.  On the sample
    document the result is a, then b with path ["a > b"]. *)
Theorem extractDependenciesRecursive_preorder (fuel : nat) (deps : value)
    (forest : list (string * Tree)) (result : list Dep.t)
    (ancestors : list string) :
  represents deps forest ->
  depth deps < fuel ->
  extractDependenciesRecursive fuel deps result (prefixOf ancestors)
  = Ok (result ++ preorder ancestors forest) /\
  (forall packageLock,
      prop packageLock "dependencies" = Ok deps ->
      truthy deps = true ->
      truthy (field packageLock "packages") = false ->
      extractDependencies packageLock = Ok (preorder [] forest)) /\
  (forall name version children rest,
      forest = (name, Node version children) :: rest ->
      preorder ancestors forest
      = Dep.make (VStr name) version (joinPath (ancestors ++ [name]))
        :: preorder (ancestors ++ [name]) children ++ preorder ancestors rest) /\
  extractDependencies Sample.nested
  = Ok [Dep.make (VStr "a") (VStr "1.0.0") "a";
        Dep.make (VStr "b") (VStr "2.0.0") "a > b"].
Proof.
  intros Hrep Hfuel. split; [|split; [|split]].
  - now apply extractDependenciesRecursive_represents.
  - intros packageLock Hd Ht Hp. now apply (extractDependencies_tree _ deps).
  - intros name version children rest ->. reflexivity.
  - vm_compute. reflexivity.
Qed.

Lemma represents_sample :
  represents
    (VObj [("a", VObj [("version", VStr "1.0.0");
                       ("dependencies",
                        VObj [("b", VObj [("version", VStr "2.0.0")])])])])
    Sample.nested_forest.
Proof.
  econstructor; [reflexivity|].
  constructor; [|constructor]. split; [reflexivity|].
  eapply represents_inner; try reflexivity.
  econstructor; [reflexivity|].
  constructor; [|constructor]. split; [reflexivity|].
  eapply represents_leaf; reflexivity.
Qed.

Lemma extractDependenciesRecursive_preorder_witness :
  extractDependenciesRecursive 5
    (VObj [("a", VObj [("version", VStr "1.0.0");
                       ("dependencies",
                        VObj [("b", VObj [("version", VStr "2.0.0")])])])])
    [] (prefixOf [])
  = Ok ([] ++ preorder [] Sample.nested_forest).
Proof.
  apply (proj1 (extractDependenciesRecursive_preorder 5 _ Sample.nested_forest
                  [] [] represents_sample ltac:(cbn; lia))).
Defined.

(** Conversely, a mapping on which the walk returns spells a tree. *)
Lemma represents_of_result (fuel : nat) :
  forall deps result prefix r,
    extractDependenciesRecursive fuel deps result prefix = Ok r ->
    exists forest, represents deps forest.
Proof.
  induction fuel as [|fuel IH]; intros deps result prefix r;
    cbn [extractDependenciesRecursive]; [discriminate|].
  destruct (entries deps) as [es| |] eqn:Hes; cbn [bind]; try discriminate.
  intros Hrun.
  enough (exists forest,
             Forall2 (fun e n => fst e = fst n /\ represents_node (snd e) (snd n))
                     es forest) as [forest Hall]
    by (exists forest; econstructor; eassumption).
  clear Hes. revert result r Hrun.
  induction es as [|[name info] es IHes]; intros result r; cbn [forEach].
  - intros _. exists []. constructor.
  - destruct (prop info "version") as [version| |] eqn:Hv; cbn [bind];
      try discriminate.
    destruct (prop info "dependencies") as [nested| |] eqn:Hn; cbn [bind];
      try discriminate.
    destruct (truthy nested) eqn:Ht.
    + destruct (extractDependenciesRecursive fuel nested _ _) as [r1| |] eqn:Hrec;
        cbn [bind]; try discriminate.
      intros Hrest. destruct (IH _ _ _ _ Hrec) as [children Hch].
      destruct (IHes _ _ Hrest) as [forest Hall].
      exists ((name, Node version children) :: forest).
      constructor; [split; [reflexivity|] | exact Hall].
      eapply represents_inner; eassumption.
    + intros Hrest. destruct (IHes _ _ Hrest) as [forest Hall].
      exists ((name, Node version []) :: forest).
      constructor; [split; [reflexivity|] | exact Hall].
      eapply represents_leaf; eassumption.
Qed.

(* ================================================================== *)
(** ** A document with neither field *)

(** C9, as the specification states it, fails on the document [null]: it
    has neither field, yet reading [packages] of it throws, and the scan
    does not take place. *)
Lemma extractDependencies_null_throws :
  extractDependencies VNull = Throw /\
  analyzePackageLock (Some Sample.data) VNull = Throw.
Proof. split; reflexivity. Qed.

(** C9, amended.  For every document other than [null] that has neither a
    [packages] nor a [dependencies] field, extraction returns the empty
    list and throws nothing, and the scan that follows reports no package
    at all. *)
Theorem extractDependencies_neither_field (data : Dataset)
    (packageLock : value) :
  nullish packageLock = false ->
  field packageLock "packages" = VUndefined ->
  field packageLock "dependencies" = VUndefined ->
  extractDependencies packageLock = Ok [] /\
  exists results,
    analyzePackageLock (Some data) packageLock = Ok (Displayed results) /\
    allPackages results = [] /\ threats results = [] /\ safe results = 0 /\
    List.length (allPackages results) = 0.
Proof.
  intros Hnn Hp Hd.
  assert (Hex : extractDependencies packageLock = Ok []).
  { unfold extractDependencies.
    rewrite !(prop_field packageLock) by exact Hnn.
    rewrite Hp, Hd. reflexivity. }
  split; [exact Hex|].
  unfold analyzePackageLock. rewrite Hex. cbn [bind].
  eexists. split; [reflexivity|]. cbn. auto.
Qed.

Lemma extractDependencies_neither_field_witness :
  extractDependencies (VObj [("name", VStr "demo"); ("lockfileVersion", VNum (Number "3"))])
  = Ok [].
Proof.
  apply (proj1 (extractDependencies_neither_field Sample.data
                  (VObj [("name", VStr "demo");
                         ("lockfileVersion", VNum (Number "3"))])
                  eq_refl eq_refl eq_refl)).
Defined.

(* ================================================================== *)
(** ** Nodes without a version *)

Lemma existsb_none {A : Type} (f : A -> bool) (l : list A) :
  (forall x, f x = false) -> existsb f l = false.
Proof.
  intros H. induction l as [|x l IH]; simpl; [reflexivity|].
  now rewrite H, IH.
Qed.

(** A listed name without a version is classified warning: [undefined] is
    no member of the compromised versions, and comparing it throws. *)
Lemma checkPackage_undefined (data : Dataset) (n : string) (pkg : Pkg.t) :
  first_named data n pkg ->
  checkPackage data (VStr n) VUndefined
  = Some (Threat.make warning (Pkg.compromisedVersions pkg) VUndefined false).
Proof.
  intros Hfirst. unfold checkPackage.
  rewrite (find_first_named _ _ _ Hfirst).
  rewrite !existsb_none by reflexivity. reflexivity.
Qed.

Lemma scan_reports (data : Dataset) (dependencies : list Dep.t) (dep : Dep.t)
    (threat : Threat.t) :
  In dep dependencies ->
  checkPackage data (Dep.name dep) (Dep.version dep) = Some threat ->
  In (Finding.make (Dep.name dep) (Dep.version dep) (Dep.path dep) threat)
     (threats (scan data dependencies)).
Proof.
  intros Hin Hcp.
  destruct (fold_analyzeDependency data dependencies
              {| safe := 0; warnings := 0; threats := []; allPackages := [] |})
    as (_ & _ & Ht & _).
  fold (scan data dependencies) in Ht. rewrite Ht. cbn [threats app].
  apply in_flat_map. exists dep. split; [exact Hin|].
  unfold findingOf. rewrite Hcp. now left.
Qed.

Lemma length_visit :
  forall (t : Tree) (ancestors : list string) (name : string),
    List.length (visit ancestors name t) = nodes t.
Proof.
  fix IH 1. intros [version children] ancestors name.
  cbn [visit nodes List.length]. f_equal.
  induction children as [|[k c] children IHc]; cbn; [reflexivity|].
  rewrite length_app, IH, IHc. reflexivity.
Qed.

Lemma length_preorder (ancestors : list string) (forest : list (string * Tree)) :
  List.length (preorder ancestors forest) = forestNodes forest.
Proof.
  induction forest as [|[k c] forest IH]; cbn; [reflexivity|].
  rewrite length_app, length_visit. fold (preorder ancestors forest).
  rewrite IH. reflexivity.
Qed.

(** Every entry of the mapping is listed with the version read from it. *)
Lemma preorder_lists_entry (deps : value) (forest : list (string * Tree))
    (es : list (string * value)) (name : string) (info : value)
    (ancestors : list string) :
  represents deps forest ->
  entries deps = Ok es ->
  In (name, info) es ->
  In (Dep.make (VStr name) (field info "version")
               (joinPath (ancestors ++ [name])))
     (preorder ancestors forest).
Proof.
  intros Hrep Hes Hin. destruct Hrep as [deps es' forest Hes' Hall].
  rewrite Hes in Hes'. injection Hes' as <-. clear Hes.
  induction Hall as [|[k i] [k' t] es forest [Hk Hnode] _ IH].
  - destruct Hin.
  - cbn [preorder flat_map fst snd]. apply in_or_app.
    destruct Hin as [[= -> ->] | Hin]; [left | right; exact (IH Hin)].
    cbn [fst snd] in Hk, Hnode. subst k'.
    assert (Hv : exists version children,
               t = Node version children /\ prop info "version" = Ok version).
    { inversion Hnode; subst; eauto. }
    destruct Hv as (version & children & -> & Hv).
    apply prop_Ok_field in Hv. destruct Hv as [_ ->]. now left.
Qed.

(** The flat strategy keeps no entry whose version is falsy. *)
Lemma forEach_extractPackage_versions (packages : list (string * value)) :
  forall dependencies r,
    forEach packages extractPackage dependencies = Ok r ->
    forall d, In d r -> In d dependencies \/ truthy (Dep.version d) = true.
Proof.
  induction packages as [|[key pkg] packages IH]; intros dependencies r;
    cbn [forEach].
  - intros [= <-] d Hd. now left.
  - destruct (extractPackage (key, pkg) dependencies) as [r1| |] eqn:E;
      cbn [bind]; try discriminate.
    intros Hrest d Hd. destruct (IH _ _ Hrest d Hd) as [H1 | H]; [|now right].
    unfold extractPackage in E.
    destruct (String.eqb key ""); [injection E as <-; now left|].
    destruct (prop pkg "name") as [pkgName| |]; cbn [bind] in E;
      try discriminate.
    destruct (prop pkg "version") as [version| |]; cbn [bind] in E;
      try discriminate.
    destruct (truthy (or_else _ _) && truthy version) eqn:Et;
      injection E as <-; [|now left].
    apply in_app_or in H1. destruct H1 as [H1 | [<- | []]]; [now left|].
    right. apply andb_prop in Et. exact (proj2 Et).
Qed.

(* ================================================================== *)
(** ** The assertions of the repository's tests, on the model *)

Example test_version_comparison :
  compareVersions (VStr "1.0.0") (VStr "1.0.0") = Ok 0%Z /\
  compareVersions (VStr "1.0.1") (VStr "1.0.0") = Ok 1%Z /\
  compareVersions (VStr "1.0.0") (VStr "1.0.1") = Ok (-1)%Z /\
  compareVersions (VStr "2.0.0") (VStr "1.9.9") = Ok 1%Z /\
  compareVersions (VStr "1.2.3") (VStr "1.2.3") = Ok 0%Z.
Proof. repeat split; vm_compute; reflexivity. Qed.

Example test_detection :
  option_map Threat.severity
    (checkPackage Sample.single (VStr "X") (VStr "1.0.0")) = Some critical /\
  option_map Threat.severity
    (checkPackage Sample.single (VStr "X") (VStr "1.0.10")) = Some high /\
  option_map Threat.severity
    (checkPackage Sample.single (VStr "X") (VStr "0.0.1")) = Some warning /\
  checkPackage Sample.single (VStr "express") (VStr "4.18.2") = None /\
  checkPackage Sample.single (VStr "react") (VStr "18.2.0") = None.
Proof. repeat split; vm_compute; reflexivity. Qed.

Example test_scan :
  let results :=
    scan Sample.single
      [Dep.make (VStr "express") (VStr "4.18.2") "node_modules/express";
       Dep.make (VStr "X") (VStr "1.0.0") "node_modules/X";
       Dep.make (VStr "react") (VStr "18.2.0") "node_modules/react"] in
  safe results = 2 /\
  map (fun f => Threat.severity (Finding.threat f)) (threats results)
  = [critical].
Proof. split; vm_compute; reflexivity. Qed.

(** What [Number] makes of some components. *)
Example test_Number :
  Number "10" = S754_finite false 5629499534213120 (-49) /\
  Number "" = Num.zero /\
  Number " 7 " = Number "7" /\
  Number "0-beta" = Num.NaN /\
  Number "x" = Num.NaN /\
  Number "1e3" = Number "1000" /\
  Number "0x10" = Number "16" /\
  Number "9007199254740993" = Number "9007199254740992" /\
  Number "Infinity" = Num.Infinity.
Proof. repeat split; vm_compute; reflexivity. Qed.

(* ================================================================== *)
(** * Further properties of the code *)

(** ** The order of the comparator *)

Lemma lt_rank (x y : Num.number) :
  x <> S754_nan -> y <> S754_nan ->
  (Num.lt x y = true <-> lexlt (rank x) (rank y)).
Proof.
  intros Hx Hy. unfold Num.lt, SFltb.
  destruct x as [sx|sx| |sx mx ex], y as [sy|sy| |sy my ey];
    try congruence; try destruct sx; try destruct sy; simpl;
    try (split; intro H; first [reflexivity | discriminate | lia]).
  - destruct (Z.compare_spec ex ey); simpl;
      try (split; intro H'; first [reflexivity | discriminate | lia]).
    change (PosDef.Pos.compare_cont Eq mx my) with (Pos.compare mx my).
    destruct (Pos.compare_spec mx my); simpl;
      split; intro H'; first [reflexivity | discriminate | lia].
  - destruct (Z.compare_spec ex ey); simpl;
      try (split; intro H'; first [reflexivity | discriminate | lia]).
    change (PosDef.Pos.compare_cont Eq mx my) with (Pos.compare mx my).
    destruct (Pos.compare_spec mx my); simpl;
      split; intro H'; first [reflexivity | discriminate | lia].
Qed.
Lemma part_not_nan (p : list Num.number) (i : nat) : part p i <> S754_nan.
Proof.
  unfold part. destruct (nth_error p i) as [x|]; [|discriminate].
  destruct x; simpl; discriminate.
Qed.

Lemma alike_sym (x y : Num.number) : alike x y -> alike y x.
Proof. intros [H1 H2]. split; assumption. Qed.

Lemma alike_refl (x : Num.number) : alike x x.
Proof. split; apply lt_irrefl. Qed.

(** The loop answers 1 exactly when the first slots [<] tells apart have
    the greater on the left. *)
Lemma compareLoop_one (steps : nat) :
  forall i p q,
    compareLoop steps i p q = 1%Z <->
    exists k, k < steps /\
              Num.lt (part q (i + k)) (part p (i + k)) = true /\
              forall j, j < k -> alike (part p (i + j)) (part q (i + j)).
Proof.
  induction steps as [|n IH]; intros i p q; cbn [compareLoop].
  - split; [discriminate | intros (k & Hk & _); lia].
  - rewrite gt_lt.
    destruct (Num.lt (part q i) (part p i)) eqn:E1.
    + split; [intros _ | reflexivity].
      exists 0. rewrite Nat.add_0_r. repeat split; [lia | exact E1 | lia | lia].
    + destruct (Num.lt (part p i) (part q i)) eqn:E2.
      * split; [discriminate|]. intros ([|k] & Hk & Hlt & Hal).
        -- rewrite Nat.add_0_r in Hlt. congruence.
        -- destruct (Hal 0 ltac:(lia)) as [H _].
           rewrite Nat.add_0_r in H. congruence.
      * rewrite (IH (S i) p q). split.
        -- intros (k & Hk & Hlt & Hal). exists (S k).
           rewrite Nat.add_succ_r. repeat split; [lia | exact Hlt | |].
           ++ destruct j as [|j]; [now rewrite Nat.add_0_r|].
              rewrite Nat.add_succ_r. apply (Hal j). lia.
           ++ destruct j as [|j]; [now rewrite Nat.add_0_r|].
              rewrite Nat.add_succ_r. apply (Hal j). lia.
        -- intros ([|k] & Hk & Hlt & Hal).
           ++ rewrite Nat.add_0_r in Hlt. congruence.
           ++ exists k. rewrite Nat.add_succ_r in Hlt.
              repeat split; [lia | exact Hlt | |];
                specialize (Hal (S j) ltac:(lia));
                rewrite Nat.add_succ_r in Hal; apply Hal.
Qed.

Lemma compareLoop_zero (steps : nat) :
  forall i p q,
    compareLoop steps i p q = 0%Z <->
    forall k, k < steps -> alike (part p (i + k)) (part q (i + k)).
Proof.
  induction steps as [|n IH]; intros i p q; cbn [compareLoop].
  - split; [intros _ k Hk; lia | reflexivity].
  - rewrite gt_lt.
    destruct (Num.lt (part q i) (part p i)) eqn:E1.
    + split; [discriminate|]. intros H.
      destruct (H 0 ltac:(lia)) as [_ H2]. rewrite Nat.add_0_r in H2.
      congruence.
    + destruct (Num.lt (part p i) (part q i)) eqn:E2.
      * split; [discriminate|]. intros H.
        destruct (H 0 ltac:(lia)) as [H1 _]. rewrite Nat.add_0_r in H1.
        congruence.
      * rewrite (IH (S i) p q). split.
        -- intros H [|k] Hk; [rewrite Nat.add_0_r; now split|].
           rewrite Nat.add_succ_r. apply H. lia.
        -- intros H k Hk. specialize (H (S k) ltac:(lia)).
           now rewrite Nat.add_succ_r in H.
Qed.

Lemma slot_beyond (a : string) (k : nat) :
  List.length (Str.split a) <= k -> slot a k = Num.zero.
Proof. intros H. apply part_beyond. now rewrite length_map. Qed.

(** X1.  Between two strings the first slot that differs decides: the
    result is 1 exactly when, at the first index where [<] tells the two
    slots apart, the left one is the greater; it is -1 when the right one
    is; and it is 0 exactly when no slot differs. *)
Theorem compareVersions_first_difference (a b : string) :
  (compareVersions (VStr a) (VStr b) = Ok 1%Z <->
   exists k, Num.lt (slot b k) (slot a k) = true /\
             forall j, j < k -> alike (slot a j) (slot b j)) /\
  (compareVersions (VStr a) (VStr b) = Ok (-1)%Z <->
   exists k, Num.lt (slot a k) (slot b k) = true /\
             forall j, j < k -> alike (slot a j) (slot b j)) /\
  (compareVersions (VStr a) (VStr b) = Ok 0%Z <->
   forall k, alike (slot a k) (slot b k)).
Proof.
  assert (Hone : forall a b,
             compareStrings a b = 1%Z <->
             exists k, Num.lt (slot b k) (slot a k) = true /\
                       forall j, j < k -> alike (slot a j) (slot b j)).
  { clear a b. intros a b. unfold compareStrings, compareParts.
    rewrite compareLoop_one. cbn [Nat.add]. split.
    - intros (k & _ & Hlt & Hal). exists k. split; assumption.
    - intros (k & Hlt & Hal). exists k. split; [|split; assumption].
      destruct (Nat.lt_ge_cases k
                  (Nat.max (List.length (map Number (Str.split a)))
                           (List.length (map Number (Str.split b)))))
        as [H | H]; [exact H | exfalso].
      unfold slot in Hlt.
      rewrite (part_beyond _ k), (part_beyond _ k) in Hlt by lia.
      rewrite lt_irrefl in Hlt. discriminate. }
  rewrite !compareVersions_strings. split; [|split].
  - split; [intros [= H]; now apply Hone | intros H; f_equal; now apply Hone].
  - assert (Hsw : compareStrings a b = (- compareStrings b a)%Z).
    { unfold compareStrings, compareParts.
      rewrite (Nat.max_comm (List.length (map Number (Str.split a)))).
      apply compareLoop_swap. }
    split.
    + intros [= H]. assert (H1 : compareStrings b a = 1%Z) by lia.
      apply Hone in H1. destruct H1 as (k & Hlt & Hal). exists k.
      split; [exact Hlt|]. intros j Hj. apply alike_sym, Hal, Hj.
    + intros (k & Hlt & Hal). f_equal.
      enough (compareStrings b a = 1%Z) by lia.
      apply Hone. exists k. split; [exact Hlt|].
      intros j Hj. apply alike_sym, Hal, Hj.
  - unfold compareStrings, compareParts. split.
    + intros [= H]. rewrite compareLoop_zero in H. intros k.
      destruct (Nat.lt_ge_cases k
                  (Nat.max (List.length (map Number (Str.split a)))
                           (List.length (map Number (Str.split b)))))
        as [Hk | Hk]; [exact (H k Hk)|].
      unfold slot. rewrite (part_beyond _ k), (part_beyond _ k) by lia.
      apply alike_refl.
    + intros H. f_equal. apply compareLoop_zero. intros k _. apply H.
Qed.

Lemma lt_rank_true (x y : Num.number) :
  x <> S754_nan -> y <> S754_nan ->
  Num.lt x y = true -> lexlt (rank x) (rank y).
Proof. intros Hx Hy H. now apply lt_rank. Qed.

Lemma lt_rank_false (x y : Num.number) :
  x <> S754_nan -> y <> S754_nan ->
  Num.lt x y = false -> ~ lexlt (rank x) (rank y).
Proof. intros Hx Hy H Hl. apply lt_rank in Hl; congruence. Qed.

Ltac rank_fact E :=
  first [ apply lt_rank_true in E; [|apply part_not_nan ..]
        | apply lt_rank_false in E; [|apply part_not_nan ..] ].

Lemma compareLoop_trans (steps : nat) :
  forall i p q r,
    (0 <= compareLoop steps i p q)%Z ->
    (0 <= compareLoop steps i q r)%Z ->
    (0 <= compareLoop steps i p r)%Z /\
    (compareLoop steps i p q = 1%Z \/ compareLoop steps i q r = 1%Z ->
     compareLoop steps i p r = 1%Z).
Proof.
  induction steps as [|n IH]; intros i p q r; cbn [compareLoop].
  - lia.
  - rewrite !gt_lt.
    destruct (Num.lt (part q i) (part p i)) eqn:E1;
    destruct (Num.lt (part p i) (part q i)) eqn:E2;
    destruct (Num.lt (part r i) (part q i)) eqn:E3;
    destruct (Num.lt (part q i) (part r i)) eqn:E4;
    destruct (Num.lt (part r i) (part p i)) eqn:E5;
    destruct (Num.lt (part p i) (part r i)) eqn:E6;
    rank_fact E1; rank_fact E2; rank_fact E3; rank_fact E4;
    rank_fact E5; rank_fact E6;
    destruct (rank (part p i)) as [[a1 a2] a3];
    destruct (rank (part q i)) as [[b1 b2] b3];
    destruct (rank (part r i)) as [[c1 c2] c3];
    unfold lexlt in *;
    first [ lia | apply IH ].
Qed.

Lemma compareStrings_trans (a b c : string) :
  (0 <= compareStrings a b)%Z ->
  (0 <= compareStrings b c)%Z ->
  (0 <= compareStrings a c)%Z /\
  (compareStrings a b = 1%Z \/ compareStrings b c = 1%Z ->
   compareStrings a c = 1%Z).
Proof.
  unfold compareStrings.
  set (p := map Number (Str.split a)).
  set (q := map Number (Str.split b)).
  set (r := map Number (Str.split c)).
  set (n := Nat.max (List.length p) (Nat.max (List.length q) (List.length r))).
  rewrite (compareParts_bound n p q), (compareParts_bound n q r),
    (compareParts_bound n p r) by lia.
  apply compareLoop_trans.
Qed.

(** X2.  The comparator orders version strings consistently: when [a] is
    not below [b] and [b] is not below [c], then [a] is not below [c]; and
    as soon as one of the two steps is strict, [a] is above [c]. *)
Theorem compareVersions_transitive (a b c : string) (x y : Z) :
  compareVersions (VStr a) (VStr b) = Ok x ->
  compareVersions (VStr b) (VStr c) = Ok y ->
  (0 <= x)%Z -> (0 <= y)%Z ->
  exists z,
    compareVersions (VStr a) (VStr c) = Ok z /\
    (0 <= z)%Z /\ (x = 1%Z \/ y = 1%Z -> z = 1%Z).
Proof.
  rewrite !compareVersions_strings. intros [= <-] [= <-] Hx Hy.
  exists (compareStrings a c). split; [reflexivity|].
  now apply compareStrings_trans.
Qed.

Lemma compareVersions_transitive_witness :
  exists z,
    compareVersions (VStr "2.0") (VStr "1.9") = Ok z /\
    (0 <= z)%Z /\ (0%Z = 1%Z \/ 1%Z = 1%Z -> z = 1%Z).
Proof.
  apply (compareVersions_transitive "2.0" "2" "1.9" 0 1);
    solve [vm_compute; reflexivity | lia].
Defined.

(* ================================================================== *)
(** ** More on the classifier *)

(** What [checkPackage] does once the entry is matched. *)
Lemma checkPackage_matched (data : Dataset) (n : string) (pkg : Pkg.t)
    (version : value) :
  first_named data n pkg ->
  checkPackage data (VStr n) version
  = if existsb (fun c => string_equals c version) (Pkg.compromisedVersions pkg)
    then Some (Threat.make critical (Pkg.compromisedVersions pkg) version true)
    else if existsb (isHigherThan version) (Pkg.compromisedVersions pkg)
         then Some (Threat.make high (Pkg.compromisedVersions pkg) version false)
         else Some (Threat.make warning (Pkg.compromisedVersions pkg) version false).
Proof.
  intros Hfirst. unfold checkPackage.
  now rewrite (find_first_named _ _ _ Hfirst).
Qed.

Lemma find_named (pkgs : list Pkg.t) (packageName : value) (pkg : Pkg.t) :
  find (fun q => string_equals (Pkg.name q) packageName) pkgs = Some pkg ->
  exists before after,
    pkgs = before ++ pkg :: after /\
    packageName = VStr (Pkg.name pkg) /\
    Forall (fun q => Pkg.name q <> Pkg.name pkg) before.
Proof.
  induction pkgs as [|q pkgs IH]; simpl; [discriminate|].
  destruct (string_equals (Pkg.name q) packageName) eqn:E.
  - intros [= <-]. apply string_equals_true in E.
    exists [], pkgs. repeat split; [exact E | constructor].
  - intros H. destruct (IH H) as (before & after & -> & Hn & Hb).
    exists (q :: before), after. repeat split; [exact Hn|].
    constructor; [|exact Hb]. intros Heq. subst packageName.
    rewrite <- Heq in E. simpl in E. rewrite String.eqb_refl in E.
    discriminate.
Qed.

(** X3.  A version that is not a string (a number, [null], [undefined],
    an object) on a listed name is classified warning: it is no member of
    the compromised versions, and every comparison throws and is caught. *)
Theorem checkPackage_not_a_string (data : Dataset) (n : string) (pkg : Pkg.t)
    (version : value) :
  first_named data n pkg ->
  (forall s, version <> VStr s) ->
  checkPackage data (VStr n) version
  = Some (Threat.make warning (Pkg.compromisedVersions pkg) version false).
Proof.
  intros Hfirst Hns. rewrite (checkPackage_matched _ _ _ _ Hfirst).
  rewrite !existsb_none; [reflexivity | |].
  - intros c. destruct version; try reflexivity. now destruct (Hns s).
  - intros c. destruct version; try reflexivity. now destruct (Hns s).
Qed.

Lemma checkPackage_not_a_string_witness :
  checkPackage Sample.data (VStr "X") (VNum (Number "1"))
  = Some (Threat.make warning ["1.0.0"; "3.0.0"] (VNum (Number "1")) false).
Proof.
  apply (checkPackage_not_a_string Sample.data "X"
           (Pkg.make "X" ["1.0.0"; "3.0.0"]) (VNum (Number "1"))
           first_named_sample).
  intros s. discriminate.
Defined.

(** X4.  Whatever the inputs, a threat that [checkPackage] returns carries
    the queried version as [installedVersion] and the compromised versions
    of an entry of that name; its [exactMatch] is true exactly when its
    severity is critical, which is exactly when the version is a string
    among those compromised versions. *)
Theorem checkPackage_threat (data : Dataset) (packageName version : value)
    (t : Threat.t) :
  checkPackage data packageName version = Some t ->
  Threat.installedVersion t = version /\
  (Threat.exactMatch t = true <-> Threat.severity t = critical) /\
  (Threat.severity t = critical <->
   exists s, version = VStr s /\ In s (Threat.compromisedVersions t)) /\
  exists pkg,
    In pkg (compromisedPackages data) /\
    packageName = VStr (Pkg.name pkg) /\
    Threat.compromisedVersions t = Pkg.compromisedVersions pkg.
Proof.
  unfold checkPackage.
  destruct (find _ _) as [pkg|] eqn:Hf; [|discriminate].
  destruct (find_named _ _ _ Hf) as (before & after & Hp & Hn & _).
  assert (Hin : In pkg (compromisedPackages data))
    by (rewrite Hp; apply in_or_app; right; now left).
  assert (Hmem : existsb (fun c => string_equals c version)
                   (Pkg.compromisedVersions pkg) = true <->
                 exists s, version = VStr s /\ In s (Pkg.compromisedVersions pkg)).
  { rewrite existsb_exists. split.
    - intros (c & Hc & He). apply string_equals_true in He. now exists c.
    - intros (s & -> & Hs). exists s. split; [exact Hs|].
      now apply string_equals_true. }
  destruct (existsb (fun c => string_equals c version) _) eqn:Ex.
  - intros [= <-]. cbn. repeat split; auto.
    + intros _. now apply Hmem.
    + now exists pkg.
  - assert (Hno : ~ exists s, version = VStr s /\
                              In s (Pkg.compromisedVersions pkg)).
    { intros H. apply Hmem in H. discriminate. }
    destruct (existsb (isHigherThan version) _); intros [= <-]; cbn;
      (repeat split; try discriminate; try tauto; now exists pkg).
Qed.

Lemma checkPackage_threat_witness :
  Threat.installedVersion
    (Threat.make high ["1.0.0"; "3.0.0"] (VStr "2.0.0") false) = VStr "2.0.0".
Proof.
  exact (proj1 (checkPackage_threat Sample.data (VStr "X") (VStr "2.0.0") _
                  eq_refl)).
Defined.

(** X5.  Only the first entry of a name counts: two datasets whose first
    entry of that name is the same classify alike, whatever else they
    list; so a version that only a later entry of the same name lists is
    never reported critical. *)
Theorem checkPackage_first_entry_only (data data' : Dataset) (n : string)
    (pkg : Pkg.t) (version : value) :
  first_named data n pkg ->
  first_named data' n pkg ->
  checkPackage data (VStr n) version = checkPackage data' (VStr n) version /\
  (forall s later,
      version = VStr s ->
      In later (compromisedPackages data) ->
      Pkg.name later = n ->
      In s (Pkg.compromisedVersions later) ->
      ~ In s (Pkg.compromisedVersions pkg) ->
      option_map Threat.severity (checkPackage data (VStr n) version)
      <> Some critical).
Proof.
  intros H H'. split.
  - now rewrite (checkPackage_matched _ _ _ _ H), (checkPackage_matched _ _ _ _ H').
  - intros s later -> _ _ _ Hnot. rewrite (checkPackage_matched _ _ _ _ H).
    destruct (existsb (fun c => string_equals c (VStr s)) _) eqn:E.
    + apply exact_member_iff in E. contradiction.
    + destruct (existsb (isHigherThan (VStr s)) _); cbn; discriminate.
Qed.

Lemma checkPackage_first_entry_only_witness :
  checkPackage
    {| attackName := ""; lastUpdate := "";
       compromisedPackages := [Pkg.make "X" ["1.0.0"; "3.0.0"];
                               Pkg.make "X" ["2.0.0"]] |}
    (VStr "X") (VStr "2.0.0")
  = checkPackage Sample.data (VStr "X") (VStr "2.0.0").
Proof.
  apply (proj1 (checkPackage_first_entry_only
                  {| attackName := ""; lastUpdate := "";
                     compromisedPackages := [Pkg.make "X" ["1.0.0"; "3.0.0"];
                                             Pkg.make "X" ["2.0.0"]] |}
                  Sample.data "X"
                  (Pkg.make "X" ["1.0.0"; "3.0.0"]) (VStr "2.0.0")
                  (ex_intro _ [] (ex_intro _ [Pkg.make "X" ["2.0.0"]]
                     (conj eq_refl (conj eq_refl (Forall_nil _)))))
                  first_named_sample)).
Defined.

(** X6.  High is kept upwards: when a version string is classified high,
    every version string that the comparator does not put below it, and
    that is not itself a compromised version, is classified high too. *)
Theorem checkPackage_high_upward (data : Dataset) (n v v' : string)
    (pkg : Pkg.t) :
  first_named data n pkg ->
  option_map Threat.severity (checkPackage data (VStr n) (VStr v)) = Some high ->
  (0 <= compareStrings v' v)%Z ->
  ~ In v' (Pkg.compromisedVersions pkg) ->
  checkPackage data (VStr n) (VStr v')
  = Some (Threat.make high (Pkg.compromisedVersions pkg) (VStr v') false).
Proof.
  intros Hfirst Hhigh Hge Hnot.
  rewrite (checkPackage_matched _ _ _ (VStr v) Hfirst) in Hhigh.
  rewrite (checkPackage_matched _ _ _ (VStr v') Hfirst).
  destruct (existsb (fun c => string_equals c (VStr v')) _) eqn:E'.
  { apply exact_member_iff in E'. contradiction. }
  destruct (existsb (fun c => string_equals c (VStr v)) _); [discriminate|].
  destruct (existsb (isHigherThan (VStr v)) _) eqn:Eh; [|discriminate].
  apply higher_iff in Eh. destruct Eh as (c & Hc & Hvc).
  assert (Hv'c : existsb (isHigherThan (VStr v')) (Pkg.compromisedVersions pkg)
                 = true).
  { apply higher_iff. exists c. split; [exact Hc|].
    destruct (compareStrings_trans v' v c Hge ltac:(lia)) as [_ H].
    pose proof (compareLoop_values
                  (Nat.max (List.length (map Number (Str.split v)))
                           (List.length (map Number (Str.split c))))
                  0 (map Number (Str.split v)) (map Number (Str.split c))) as Hval.
    fold (compareParts (map Number (Str.split v)) (map Number (Str.split c)))
      in Hval.
    fold (compareStrings v c) in Hval.
    rewrite H; lia. }
  now rewrite Hv'c.
Qed.

Lemma checkPackage_high_upward_witness :
  checkPackage Sample.data (VStr "X") (VStr "2.5")
  = Some (Threat.make high ["1.0.0"; "3.0.0"] (VStr "2.5") false).
Proof.
  apply (checkPackage_high_upward Sample.data "X" "2.0.0" "2.5"
           (Pkg.make "X" ["1.0.0"; "3.0.0"]) first_named_sample).
  - vm_compute. reflexivity.
  - vm_compute. discriminate.
  - simpl. intros [H|[H|[]]]; discriminate H.
Defined.

(* ================================================================== *)
(** ** More on the scan and its display *)

Lemma scan_fields (data : Dataset) (dependencies : list Dep.t) :
  safe (scan data dependencies)
  = List.length (filter (notFound data) dependencies) /\
  warnings (scan data dependencies) = 0 /\
  threats (scan data dependencies) = flat_map (findingOf data) dependencies /\
  allPackages (scan data dependencies) = dependencies.
Proof.
  exact (fold_analyzeDependency data dependencies
           {| safe := 0; warnings := 0; threats := []; allPackages := [] |}).
Qed.

(** X7.  Scanning a list in two parts and adding up gives the scan of the
    whole: the safe counts add, the findings and the packages follow one
    another; and the [warnings] field of the results is never touched. *)
Theorem scan_app (data : Dataset) (xs ys : list Dep.t) :
  safe (scan data (xs ++ ys)) = safe (scan data xs) + safe (scan data ys) /\
  threats (scan data (xs ++ ys))
  = threats (scan data xs) ++ threats (scan data ys) /\
  allPackages (scan data (xs ++ ys))
  = allPackages (scan data xs) ++ allPackages (scan data ys) /\
  warnings (scan data (xs ++ ys)) = 0.
Proof.
  destruct (scan_fields data (xs ++ ys)) as (-> & -> & -> & ->).
  destruct (scan_fields data xs) as (-> & _ & -> & ->).
  destruct (scan_fields data ys) as (-> & _ & -> & ->).
  rewrite filter_app, length_app, flat_map_app. auto.
Qed.

Lemma findingOf_nil (data : Dataset) (dep : Dep.t) :
  findingOf data dep = [] <->
  forall pkg, In pkg (compromisedPackages data) ->
              VStr (Pkg.name pkg) <> Dep.name dep.
Proof.
  unfold findingOf, checkPackage. rewrite <- find_none_iff.
  destruct (find _ _) as [pkg|]; [|tauto].
  split; [|discriminate].
  destruct (existsb _ _); [discriminate|].
  destruct (existsb _ _); discriminate.
Qed.

Lemma flat_map_nil {A B : Type} (f : A -> list B) (l : list A) :
  flat_map f l = [] <-> forall x, In x l -> f x = [].
Proof.
  induction l as [|x l IH]; simpl.
  - split; [intros _ y [] | reflexivity].
  - split.
    + intros H. apply app_eq_nil in H. destruct H as [Hx Hl].
      intros y [<- | Hy]; [exact Hx | now apply IH].
    + intros H. rewrite (H x (or_introl eq_refl)).
      apply IH. intros y Hy. apply H. now right.
Qed.

(** X8.  The scan reports no threat exactly when no dependency bears a
    listed name, whatever the versions; then every dependency counts as
    safe.  With an empty dataset that is always so. *)
Theorem scan_no_threat (data : Dataset) (dependencies : list Dep.t) :
  (threats (scan data dependencies) = [] <->
   forall dep pkg,
     In dep dependencies -> In pkg (compromisedPackages data) ->
     VStr (Pkg.name pkg) <> Dep.name dep) /\
  (threats (scan data dependencies) = [] ->
   safe (scan data dependencies) = List.length dependencies) /\
  (compromisedPackages data = [] -> threats (scan data dependencies) = []).
Proof.
  destruct (scan_fields data dependencies) as (Hs & _ & Ht & _).
  assert (Hiff : threats (scan data dependencies) = [] <->
                 forall dep pkg,
                   In dep dependencies -> In pkg (compromisedPackages data) ->
                   VStr (Pkg.name pkg) <> Dep.name dep).
  { rewrite Ht, flat_map_nil. split.
    - intros H dep pkg Hd. now apply findingOf_nil, H.
    - intros H dep Hd. apply findingOf_nil. intros pkg. now apply H. }
  split; [exact Hiff|]. split.
  - intros Hnil. pose proof (findings_and_safe data dependencies) as Hsum.
    rewrite <- Ht, Hnil in Hsum. rewrite Hs. simpl in Hsum. lia.
  - intros Hempty. apply Hiff. intros dep pkg _ Hp.
    rewrite Hempty in Hp. destruct Hp.
Qed.

Lemma scan_no_threat_witness :
  safe (scan Sample.data [Dep.make (VStr "left-pad") (VStr "1.3.0") "p"]) = 1.
Proof.
  apply (proj1 (proj2 (scan_no_threat Sample.data
                         [Dep.make (VStr "left-pad") (VStr "1.3.0") "p"]))).
  reflexivity.
Defined.

Lemma severity_partition (l : list Finding.t) :
  List.length (filter isWarningOrHigh l) + List.length (filter isCritical l)
  = List.length l.
Proof.
  induction l as [|t l IH]; simpl; [reflexivity|].
  unfold isWarningOrHigh at 1, isCritical at 1.
  destruct (Threat.severity (Finding.threat t)); simpl; lia.
Qed.

(** X9.  The three counters [displayResults] shows for a scan add up to
    the total it reports, which is the number of dependencies scanned; the
    "No threats detected" block is shown exactly when every dependency
    counts as safe, and otherwise there is one card per finding; the
    danger counter counts the findings whose [exactMatch] is set. *)
Theorem displayResults_counters (data : Dataset) (dependencies : list Dep.t) :
  let shown := displayResults (scan data dependencies) in
  safeCount shown + warningCount shown + dangerCount shown
  = totalPackages shown /\
  totalPackages shown = List.length dependencies /\
  (noThreats shown = true <-> safeCount shown = totalPackages shown) /\
  (noThreats shown = false -> cards shown = flat_map (findingOf data) dependencies) /\
  dangerCount shown
  = List.length (filter (fun t => Threat.exactMatch (Finding.threat t))
                        (threats (scan data dependencies))).
Proof.
  destruct (scan_fields data dependencies) as (Hs & _ & Ht & Ha).
  pose proof (findings_and_safe data dependencies) as Hsum.
  pose proof (severity_partition (threats (scan data dependencies))) as Hpart.
  cbv zeta. unfold displayResults. cbn [safeCount warningCount dangerCount
    noThreats cards totalPackages].
  rewrite Ha, Hs. rewrite Ht in Hpart |- *.
  split; [lia|]. split; [reflexivity|]. split; [|split].
  - rewrite Nat.eqb_eq. lia.
  - intros ->. reflexivity.
  - f_equal. apply filter_ext_in. intros t Hin.
    apply in_flat_map in Hin. destruct Hin as (dep & _ & Hin).
    unfold findingOf in Hin.
    destruct (checkPackage data (Dep.name dep) (Dep.version dep)) as [th|] eqn:E;
      [|destruct Hin].
    destruct Hin as [<- | []]. unfold isCritical. cbn.
    unfold checkPackage in E. destruct (find _ _); [|discriminate].
    destruct (existsb _ _); [injection E as <-; reflexivity|].
    destruct (existsb _ _); injection E as <-; reflexivity.
Qed.

(* ================================================================== *)
(** ** More on extraction *)

(** X10.  Extraction reads the two fields [packages] and [dependencies]
    and nothing else of the document, one after the other: the result for
    a document is the result for its [packages] alone followed by the
    result for its [dependencies] alone, nothing being merged or dropped;
    and it throws when either part does. *)
Theorem extractDependencies_both (packageLock : value) :
  nullish packageLock = false ->
  extractDependencies packageLock
  = (flat <- extractDependencies
               (VObj [("packages", field packageLock "packages")]) ;;
     tree <- extractDependencies
               (VObj [("dependencies", field packageLock "dependencies")]) ;;
     Ok (flat ++ tree)).
Proof.
  intros Hnn. unfold extractDependencies.
  rewrite !(prop_field packageLock) by exact Hnn.
  cbn [prop lookup String.eqb Ascii.eqb Bool.eqb bind truthy].
  set (flat := if truthy (field packageLock "packages")
               then es <- entries (field packageLock "packages") ;;
                    forEach es extractPackage []
               else Ok []).
  destruct flat as [flat| |]; cbn [bind]; try reflexivity.
  destruct (truthy (field packageLock "dependencies")) eqn:Ht.
  - assert (Hd : depth (field packageLock "dependencies") < depth packageLock).
    { apply (depth_prop packageLock _ "dependencies");
        [now apply prop_field | exact Ht]. }
    rewrite extractDependenciesRecursive_accumulate.
    rewrite (extractDependenciesRecursive_fuel _
               (S (depth (VObj [("dependencies",
                                 field packageLock "dependencies")])))).
    + destruct (extractDependenciesRecursive _ _ [] ""); reflexivity.
    + lia.
    + cbn [depth fold_right snd]. lia.
  - cbn [bind]. now rewrite app_nil_r.
Qed.

Lemma extractDependencies_both_witness :
  extractDependencies
    (VObj [("lockfileVersion", VNum (Number "2"));
           ("packages", VObj [("node_modules/a", VObj [("version", VStr "1.0.0")])]);
           ("dependencies", VObj [("a", VObj [("version", VStr "1.0.0")])])])
  = Ok [Dep.make (VStr "a") (VStr "1.0.0") "node_modules/a";
        Dep.make (VStr "a") (VStr "1.0.0") "a"].
Proof.
  rewrite (extractDependencies_both
             (VObj [("lockfileVersion", VNum (Number "2"));
                    ("packages",
                     VObj [("node_modules/a", VObj [("version", VStr "1.0.0")])]);
                    ("dependencies",
                     VObj [("a", VObj [("version", VStr "1.0.0")])])])
             eq_refl).
  reflexivity.
Defined.

Lemma forEach_extractPackage_cases (packages : list (string * value)) :
  forall dependencies,
    forEach packages extractPackage dependencies
    = if existsb badEntry packages then Throw
      else Ok (dependencies ++ flat_map flatEntry packages).
Proof.
  induction packages as [|[key pkg] packages IH]; intros dependencies;
    cbn [forEach existsb flat_map].
  - now rewrite app_nil_r.
  - unfold badEntry at 1. cbn [fst snd].
    destruct (String.eqb_spec key "") as [->|Hne]; cbn [negb andb].
    + rewrite (extractPackage_flatEntry "" pkg dependencies
                 (fun H => False_ind _ (H eq_refl))).
      cbn [bind orb flatEntry fst String.eqb]. rewrite IH, app_nil_r.
      reflexivity.
    + destruct (nullish pkg) eqn:Hn; cbn [orb].
      * unfold extractPackage.
        rewrite (proj2 (String.eqb_neq key "") Hne).
        destruct pkg; try discriminate; reflexivity.
      * rewrite (extractPackage_flatEntry key pkg dependencies (fun _ => Hn)).
        cbn [bind]. rewrite IH, app_assoc. reflexivity.
Qed.

(** X11.  On a document with a [packages] mapping and no [dependencies],
    extraction throws exactly when an entry other than the root one is
    [null]; what the entries before it gave is lost with the exception.
    When no entry is [null] the result is the list of the kept entries. *)
Theorem extractDependencies_null_entry (packageLock : value)
    (packages : list (string * value)) :
  prop packageLock "packages" = Ok (VObj packages) ->
  truthy (field packageLock "dependencies") = false ->
  (extractDependencies packageLock = Throw <->
   exists key pkg, In (key, pkg) packages /\ key <> "" /\ nullish pkg = true) /\
  (extractDependencies packageLock <> Throw ->
   extractDependencies packageLock = Ok (flat_map flatEntry packages)).
Proof.
  intros Hp Hd.
  destruct (prop_Ok_field _ _ _ Hp) as [Hnn _].
  assert (Hex : extractDependencies packageLock
                = if existsb badEntry packages then Throw
                  else Ok (flat_map flatEntry packages)).
  { unfold extractDependencies. rewrite Hp. cbn [bind truthy entries].
    rewrite forEach_extractPackage_cases.
    destruct (existsb badEntry packages); [reflexivity|]. cbn [bind app].
    rewrite (prop_field _ _ Hnn). cbn [bind]. now rewrite Hd. }
  rewrite Hex. split.
  - destruct (existsb badEntry packages) eqn:E.
    + split; [intros _ | reflexivity].
      apply existsb_exists in E. destruct E as ([key pkg] & Hin & Hbad).
      unfold badEntry in Hbad. cbn [fst snd] in Hbad.
      apply andb_prop in Hbad. destruct Hbad as [Hk Hn].
      exists key, pkg. repeat split; try assumption.
      intros ->. discriminate.
    + split; [discriminate|]. intros (key & pkg & Hin & Hk & Hn).
      assert (existsb badEntry packages = true); [|congruence].
      apply existsb_exists. exists (key, pkg). split; [exact Hin|].
      unfold badEntry. cbn [fst snd]. rewrite Hn.
      now rewrite (proj2 (String.eqb_neq key "") Hk).
  - destruct (existsb badEntry packages); [congruence | reflexivity].
Qed.

Lemma extractDependencies_null_entry_witness :
  extractDependencies
    (VObj [("packages",
            VObj [("node_modules/a", VObj [("version", VStr "1.0.0")]);
                  ("node_modules/b", VNull)])])
  = Throw.
Proof.
  apply (proj1 (extractDependencies_null_entry
                  (VObj [("packages",
                          VObj [("node_modules/a",
                                 VObj [("version", VStr "1.0.0")]);
                                ("node_modules/b", VNull)])])
                  [("node_modules/a", VObj [("version", VStr "1.0.0")]);
                   ("node_modules/b", VNull)]
                  eq_refl eq_refl)).
  exists "node_modules/b", VNull. repeat split; [simpl; auto | discriminate].
Defined.

Lemma extractDependenciesRecursive_total (fuel : nat) :
  forall deps forest,
    represents deps forest ->
    depth deps < fuel ->
    forall result prefix,
      exists r, extractDependenciesRecursive fuel deps result prefix = Ok r.
Proof.
  induction fuel as [|fuel IH]; intros deps forest Hrep Hfuel result prefix;
    [lia|].
  destruct Hrep as [deps es forest Hes Hall].
  cbn [extractDependenciesRecursive]. rewrite Hes. cbn [bind].
  assert (Hdepth : forall k info, In (k, info) es -> depth info <= depth deps)
    by (intros k info; apply depth_entries; exact Hes).
  clear Hes. revert result.
  induction Hall as [|[name info] [name' t] es forest [Hname Hnode] _ IHall];
    intros result.
  - exists result. reflexivity.
  - cbn [fst snd] in Hname, Hnode. subst name'.
    assert (Hinfo : depth info <= depth deps)
      by (apply (Hdepth name); now left).
    assert (IHrest : forall result,
               exists r,
                 forEach es
                   (fun '(name, info) result =>
                      version <- prop info "version" ;;
                      nested <- prop info "dependencies" ;;
                      (if truthy nested
                       then extractDependenciesRecursive fuel nested
                              (result ++ [Dep.make (VStr name) version
                                            (prefix ++ name)])
                              (prefix ++ name ++ " > ")
                       else Ok (result ++ [Dep.make (VStr name) version
                                             (prefix ++ name)])))
                   result = Ok r)
      by (apply IHall; intros k i Hin; apply (Hdepth k); now right).
    cbn [forEach].
    inversion Hnode as [i v nested Hv Hn Ht | i v nested children Hv Hn Ht Hch];
      subst; rewrite Hv, Hn; cbn [bind]; rewrite Ht.
    + cbn [bind]. apply IHrest.
    + destruct (IH nested children Hch
                  ltac:(pose proof (depth_prop _ _ _ Hn Ht); lia)
                  (result ++ [Dep.make (VStr name) v (prefix ++ name)])
                  (prefix ++ name ++ " > ")%string) as [r1 Hr1].
      rewrite Hr1. cbn [bind]. apply IHrest.
Qed.

Lemma Forall2_In_left {A B : Type} (R : A -> B -> Prop) (l : list A)
    (l' : list B) (x : A) :
  Forall2 R l l' -> In x l -> exists y, In y l' /\ R x y.
Proof.
  induction 1 as [|a b l l' Hab _ IH]; intros Hin; [destruct Hin|].
  destruct Hin as [<- | Hin].
  - exists b. split; [now left | exact Hab].
  - destruct (IH Hin) as (y & Hy & Hr). exists y. split; [now right | exact Hr].
Qed.

(** X12.  With fuel above the depth of the mapping, the tree walk returns
    exactly when the mapping spells a tree, that is when no entry it
    visits is [null]; otherwise it throws.  A [null] among the entries of
    the mapping itself is enough to make it throw. *)
Theorem extractDependenciesRecursive_returns (fuel : nat) (deps : value)
    (result : list Dep.t) (prefix : string) :
  depth deps < fuel ->
  ((exists r, extractDependenciesRecursive fuel deps result prefix = Ok r) <->
   exists forest, represents deps forest) /\
  (extractDependenciesRecursive fuel deps result prefix = Throw <->
   ~ exists forest, represents deps forest) /\
  (forall es name,
      entries deps = Ok es -> In (name, VNull) es ->
      extractDependenciesRecursive fuel deps result prefix = Throw).
Proof.
  intros Hfuel.
  assert (Hret : (exists r, extractDependenciesRecursive fuel deps result prefix
                            = Ok r) <->
                 exists forest, represents deps forest).
  { split.
    - intros [r Hr]. exact (represents_of_result _ _ _ _ _ Hr).
    - intros [forest Hrep].
      exact (extractDependenciesRecursive_total _ _ _ Hrep Hfuel _ _). }
  assert (Hthrow : extractDependenciesRecursive fuel deps result prefix = Throw <->
                   ~ exists forest, represents deps forest).
  { rewrite <- Hret.
    pose proof (extractDependenciesRecursive_enough fuel deps result prefix Hfuel)
      as Hno.
    destruct (extractDependenciesRecursive fuel deps result prefix) as [r| |].
    - split; [discriminate | intros H; destruct H; now exists r].
    - split; [intros _ [r Hr]; discriminate | reflexivity].
    - congruence. }
  split; [exact Hret|]. split; [exact Hthrow|].
  intros es name Hes Hin. apply Hthrow. intros [forest Hrep].
  destruct Hrep as [deps es' forest Hes' Hall].
  rewrite Hes in Hes'. injection Hes' as <-.
  destruct (Forall2_In_left _ _ _ _ Hall Hin) as (y & _ & _ & Hnode).
  cbn [snd] in Hnode. inversion Hnode; discriminate.
Qed.

Lemma extractDependenciesRecursive_returns_witness :
  extractDependenciesRecursive 3
    (VObj [("a", VObj [("version", VStr "1.0.0")]); ("b", VNull)]) [] ""
  = Throw.
Proof.
  apply (proj2 (proj2 (extractDependenciesRecursive_returns 3
                  (VObj [("a", VObj [("version", VStr "1.0.0")]); ("b", VNull)])
                  [] "" ltac:(cbn; lia)))
           [("a", VObj [("version", VStr "1.0.0")]); ("b", VNull)] "b" eq_refl).
  simpl. auto.
Defined.







(* ================================================================== *)
(** ** The converter: strings *)

Lemma rev_onto_app (s acc : string) :
  Str.rev_onto s acc = (Str.rev s ++ acc)%string.
Proof.
  unfold Str.rev. revert acc.
  induction s as [|c s IH]; intros acc; cbn [Str.rev_onto]; [reflexivity|].
  rewrite (IH (String c acc)), (IH (String c "")), append_assoc. reflexivity.
Qed.

Lemma rev_cons (c : ascii) (s : string) :
  Str.rev (String c s) = (Str.rev s ++ String c "")%string.
Proof. unfold Str.rev at 1. cbn [Str.rev_onto]. apply rev_onto_app. Qed.

Lemma rev_app (a b : string) :
  Str.rev (a ++ b) = (Str.rev b ++ Str.rev a)%string.
Proof.
  induction a as [|c a IH]; cbn [append].
  - change (Str.rev "") with "". now rewrite append_empty.
  - rewrite !rev_cons, IH, append_assoc. reflexivity.
Qed.

Lemma rev_involutive (s : string) : Str.rev (Str.rev s) = s.
Proof.
  induction s as [|c s IH]; [reflexivity|].
  rewrite rev_cons, rev_app, IH. reflexivity.
Qed.

Lemma trim_left_headOk (s : string) : Csv.headOk (Str.trim_left s) = true.
Proof.
  induction s as [|c s IH]; cbn [Str.trim_left]; [reflexivity|].
  destruct (Str.is_space c) eqn:E; [exact IH|]. cbn. now rewrite E.
Qed.

Lemma trim_left_id (s : string) : Csv.headOk s = true -> Str.trim_left s = s.
Proof.
  destruct s as [|c s]; cbn; [reflexivity|].
  destruct (Str.is_space c); [discriminate | reflexivity].
Qed.

Lemma trim_left_snoc (a : string) (c : ascii) :
  Str.is_space c = false ->
  exists u, Str.trim_left (a ++ String c "") = (u ++ String c "")%string.
Proof.
  intros Hc. induction a as [|x a IH]; cbn [append Str.trim_left].
  - rewrite Hc. now exists "".
  - destruct (Str.is_space x); [exact IH|]. now exists (String x a).
Qed.

Lemma headOk_trim (s : string) : Csv.headOk (Str.trim s) = true.
Proof.
  unfold Str.trim. pose proof (trim_left_headOk s) as H.
  destruct (Str.trim_left s) as [|c t]; [reflexivity|].
  cbn in H. apply negb_true_iff in H.
  rewrite rev_cons.
  destruct (trim_left_snoc (Str.rev t) c H) as [u ->].
  rewrite rev_app. cbn. now rewrite H.
Qed.

Lemma lastOk_trim (s : string) : Csv.lastOk (Str.trim s) = true.
Proof.
  unfold Csv.lastOk, Str.trim. rewrite rev_involutive.
  apply trim_left_headOk.
Qed.

Lemma trim_id (s : string) :
  Csv.headOk s = true -> Csv.lastOk s = true -> Str.trim s = s.
Proof.
  intros Hh Hl. unfold Str.trim.
  rewrite (trim_left_id s Hh), (trim_left_id (Str.rev s) Hl).
  apply rev_involutive.
Qed.

Lemma trim_idempotent (s : string) : Str.trim (Str.trim s) = Str.trim s.
Proof. apply trim_id; [apply headOk_trim | apply lastOk_trim]. Qed.

Lemma headOk_app (a b : string) :
  a <> "" -> Csv.headOk a = true -> Csv.headOk (a ++ b) = true.
Proof. destruct a; [congruence | auto]. Qed.

Lemma lastOk_app (a b : string) :
  b <> "" -> Csv.lastOk b = true -> Csv.lastOk (a ++ b) = true.
Proof.
  intros Hb Hl. unfold Csv.lastOk in *. rewrite rev_app.
  apply headOk_app; [|exact Hl].
  intros H. apply (f_equal Str.rev) in H. rewrite rev_involutive in H.
  now apply Hb.
Qed.

(** *** Characters a string lacks *)

Lemma lacks_app (c : ascii) (a b : string) :
  Csv.lacks c (a ++ b) = Csv.lacks c a && Csv.lacks c b.
Proof.
  induction a as [|x a IH]; cbn; [reflexivity|].
  now rewrite IH, andb_assoc.
Qed.

Lemma lacks_rev (c : ascii) (s : string) :
  Csv.lacks c (Str.rev s) = Csv.lacks c s.
Proof.
  induction s as [|x s IH]; [reflexivity|].
  rewrite rev_cons, lacks_app, IH. cbn. rewrite andb_true_r. apply andb_comm.
Qed.

Lemma lacks_trim_left (c : ascii) (s : string) :
  Csv.lacks c s = true -> Csv.lacks c (Str.trim_left s) = true.
Proof.
  induction s as [|x s IH]; cbn [Str.trim_left]; [auto|].
  destruct (Str.is_space x); [|auto].
  cbn. intros H. apply andb_prop in H. now apply IH.
Qed.

Lemma lacks_trim (c : ascii) (s : string) :
  Csv.lacks c s = true -> Csv.lacks c (Str.trim s) = true.
Proof.
  intros H. unfold Str.trim. rewrite lacks_rev.
  apply lacks_trim_left. rewrite lacks_rev. now apply lacks_trim_left.
Qed.

(** *** Splitting at a character *)

Lemma split_on_nonempty (sep : ascii) (s : string) : Csv.split_on sep s <> [].
Proof.
  induction s as [|c s IH]; cbn; [discriminate|].
  destruct (Ascii.eqb c sep); [discriminate|].
  destruct (Csv.split_on sep s); discriminate.
Qed.

Lemma split_on_lacks (sep : ascii) (s : string) :
  Csv.lacks sep s = true -> Csv.split_on sep s = [s].
Proof.
  induction s as [|c s IH]; cbn; [reflexivity|].
  intros H. apply andb_prop in H. destruct H as [Hc Hs].
  apply negb_true_iff in Hc. rewrite Hc, (IH Hs). reflexivity.
Qed.

Lemma split_on_app (sep : ascii) (a b : string) :
  Csv.split_on sep (a ++ String sep b)
  = Csv.split_on sep a ++ Csv.split_on sep b.
Proof.
  induction a as [|x a IH]; cbn [append Csv.split_on].
  - now rewrite Ascii.eqb_refl.
  - rewrite IH. destruct (Ascii.eqb x sep); [reflexivity|].
    pose proof (split_on_nonempty sep a) as Hne.
    destruct (Csv.split_on sep a); [congruence | reflexivity].
Qed.

Lemma split_on_concat (sep : ascii) (x : string) (xs : list string) :
  Forall (fun s => Csv.lacks sep s = true) (x :: xs) ->
  Csv.split_on sep (String.concat (String sep "") (x :: xs)) = x :: xs.
Proof.
  revert x. induction xs as [|y ys IH]; intros x H.
  - cbn. apply split_on_lacks. now inversion H.
  - change (String.concat (String sep "") (x :: y :: ys))
      with (x ++ String sep (String.concat (String sep "") (y :: ys)))%string.
    rewrite split_on_app, IH by (now inversion H).
    rewrite split_on_lacks by (now inversion H). reflexivity.
Qed.

(** The pieces lack the separator, and whatever the string lacks. *)
Lemma split_on_pieces (sep c : ascii) (s : string) :
  (Ascii.eqb c sep = true \/ Csv.lacks c s = true) ->
  Forall (fun p => Csv.lacks c p = true) (Csv.split_on sep s).
Proof.
  induction s as [|x s IH]; intros H; cbn [Csv.split_on].
  - repeat constructor.
  - assert (Hs : Ascii.eqb c sep = true \/ Csv.lacks c s = true).
    { destruct H as [H|H]; [now left | right].
      cbn in H. now apply andb_prop in H. }
    specialize (IH Hs).
    destruct (Ascii.eqb x sep) eqn:Ex.
    + constructor; [reflexivity | exact IH].
    + pose proof (split_on_nonempty sep s) as Hne.
      destruct (Csv.split_on sep s) as [|p ps]; [congruence|].
      inversion IH as [|? ? Hp Hps]; subst.
      constructor; [|exact Hps]. cbn. rewrite Hp, andb_true_r.
      destruct H as [H|H].
      * apply Ascii.eqb_eq in H. subst c. now rewrite Ex.
      * cbn in H. now apply andb_prop in H.
Qed.

(* ================================================================== *)
(** ** The converter: what it lists *)

Lemma step_lacks (c x : ascii) (st : Csv.LineState) :
  (Ascii.eqb c Csv.quote = true \/ Ascii.eqb x c = false) ->
  stateLacks c st -> stateLacks c (Csv.step st x).
Proof.
  intros Hc [Hp Hcur]. unfold Csv.step.
  destruct (Ascii.eqb x Csv.quote) eqn:Eq; [now split|].
  destruct (Ascii.eqb x Csv.comma && negb (Csv.inQuotes st)); split; cbn.
  - apply Forall_app. split; [exact Hp|]. constructor; [|constructor].
    split; [now apply lacks_trim | apply trim_idempotent].
  - reflexivity.
  - exact Hp.
  - rewrite lacks_app, Hcur. cbn. rewrite andb_true_r.
    destruct Hc as [Hc | Hc]; [|now rewrite Hc].
    apply Ascii.eqb_eq in Hc. subst c. now rewrite Eq.
Qed.

Lemma scanLine_lacks (c : ascii) (line : string) :
  (Ascii.eqb c Csv.quote = true \/ Csv.lacks c line = true) ->
  forall st, stateLacks c st -> stateLacks c (Csv.scanLine line st).
Proof.
  induction line as [|x line IH]; intros Hc st Hst; cbn [Csv.scanLine];
    [exact Hst|].
  apply IH.
  - destruct Hc as [Hc|Hc]; [now left | right].
    cbn in Hc. now apply andb_prop in Hc.
  - apply step_lacks; [|exact Hst].
    destruct Hc as [Hc|Hc]; [now left | right].
    cbn in Hc. apply andb_prop in Hc. now apply negb_true_iff.
Qed.

Lemma parseLine_lacks (c : ascii) (line : string) :
  (Ascii.eqb c Csv.quote = true \/ Csv.lacks c line = true) ->
  Forall (fun p => Csv.lacks c p = true /\ Str.trim p = p) (Csv.parseLine line).
Proof.
  intros Hc. unfold Csv.parseLine.
  destruct (scanLine_lacks c line Hc
              {| Csv.parts := []; Csv.current := ""; Csv.inQuotes := false |})
    as [Hp Hcur]; [split; [constructor | reflexivity]|].
  apply Forall_app. split; [exact Hp|]. constructor; [|constructor].
  split; [now apply lacks_trim | apply trim_idempotent].
Qed.

Lemma trim_fixed (s : string) :
  Str.trim s = s -> Csv.headOk s = true /\ Csv.lastOk s = true.
Proof. intros <-. split; [apply headOk_trim | apply lastOk_trim]. Qed.

Lemma versionsOf_clean (versionsString : string) :
  Csv.lacks Csv.quote versionsString = true ->
  Csv.lacks Csv.newline versionsString = true ->
  Forall (fun v => Csv.cleanField v = true) (Csv.versionsOf versionsString).
Proof.
  intros Hq Hn. unfold Csv.versionsOf. apply Forall_forall. intros v Hv.
  apply filter_In in Hv. destruct Hv as [Hin Hne].
  apply in_map_iff in Hin. destruct Hin as (piece & <- & Hpiece).
  pose proof (split_on_pieces Csv.comma Csv.comma versionsString
                (or_introl eq_refl)) as Hc.
  pose proof (split_on_pieces Csv.comma Csv.quote versionsString
                (or_intror Hq)) as Hq'.
  pose proof (split_on_pieces Csv.comma Csv.newline versionsString
                (or_intror Hn)) as Hn'.
  rewrite Forall_forall in Hc, Hq', Hn'.
  unfold Csv.cleanField.
  rewrite Hne, (lacks_trim _ _ (Hc _ Hpiece)), (lacks_trim _ _ (Hq' _ Hpiece)),
    (lacks_trim _ _ (Hn' _ Hpiece)), headOk_trim, lastOk_trim.
  reflexivity.
Qed.

Lemma processLine_lists (packages : list Pkg.t) (rawLine : string)
    (pkg : Pkg.t) :
  Csv.lacks Csv.newline rawLine = true ->
  In pkg (Csv.processLine packages rawLine) ->
  In pkg packages \/
  (Csv.lacks Csv.quote (Pkg.name pkg) = true /\
   Csv.lacks Csv.newline (Pkg.name pkg) = true /\
   Str.trim (Pkg.name pkg) = Pkg.name pkg /\
   Forall (fun v => Csv.cleanField v = true) (Pkg.compromisedVersions pkg)).
Proof.
  intros Hn. unfold Csv.processLine.
  destruct (String.eqb (Str.trim rawLine) ""); [now left|].
  pose proof (parseLine_lacks Csv.quote (Str.trim rawLine) (or_introl eq_refl))
    as Hq.
  pose proof (parseLine_lacks Csv.newline (Str.trim rawLine)
                (or_intror (lacks_trim _ _ Hn))) as Hnl.
  destruct (Csv.parseLine (Str.trim rawLine)) as [|name [|versions more]];
    try (now left).
  intros Hin. apply in_app_or in Hin. destruct Hin as [Hin | [<- | []]];
    [now left | right].
  inversion Hq as [|? ? [Hq1 Ht1] Hq2]; subst.
  inversion Hq2 as [|? ? [Hq3 _] _]; subst.
  inversion Hnl as [|? ? [Hn1 _] Hn2]; subst.
  inversion Hn2 as [|? ? [Hn3 _] _]; subst.
  cbn. repeat split; try assumption. now apply versionsOf_clean.
Qed.

Lemma fold_processLine_lists (lines : list string) :
  Forall (fun l => Csv.lacks Csv.newline l = true) lines ->
  forall packages pkg,
    In pkg (fold_left Csv.processLine lines packages) ->
    In pkg packages \/
    (Csv.lacks Csv.quote (Pkg.name pkg) = true /\
     Csv.lacks Csv.newline (Pkg.name pkg) = true /\
     Str.trim (Pkg.name pkg) = Pkg.name pkg /\
     Forall (fun v => Csv.cleanField v = true) (Pkg.compromisedVersions pkg)).
Proof.
  induction 1 as [|l lines Hl _ IH]; intros packages pkg; cbn [fold_left].
  - now left.
  - intros Hin. destruct (IH _ _ Hin) as [H | H]; [|now right].
    exact (processLine_lists _ _ _ Hl H).
Qed.

Lemma fold_processLine_length (lines : list string) :
  forall packages,
    List.length (fold_left Csv.processLine lines packages)
    <= List.length packages + List.length lines.
Proof.
  induction lines as [|l lines IH]; intros packages; cbn [fold_left].
  - cbn. lia.
  - specialize (IH (Csv.processLine packages l)).
    assert (List.length (Csv.processLine packages l) <= S (List.length packages)).
    { unfold Csv.processLine. destruct (String.eqb _ _); [lia|].
      destruct (Csv.parseLine _) as [|a [|b c]]; try lia.
      rewrite length_app. cbn. lia. }
    cbn [List.length]. lia.
Qed.

(** X14.  Whatever the CSV, every version the converter lists is a clean
    field: not empty, without comma, quote or line feed, with no white
    space around; and every name it lists is trimmed and holds neither a
    quote nor a line feed.  (A name may be empty, and a package may have
    no version at all.) *)
Theorem processCSV_fields (today csvContent : string) (pkg : Pkg.t) :
  In pkg (compromisedPackages (Csv.processCSV today csvContent)) ->
  Csv.lacks Csv.quote (Pkg.name pkg) = true /\
  Csv.lacks Csv.newline (Pkg.name pkg) = true /\
  Str.trim (Pkg.name pkg) = Pkg.name pkg /\
  Forall (fun v => Csv.cleanField v = true) (Pkg.compromisedVersions pkg).
Proof.
  cbn [Csv.processCSV compromisedPackages]. unfold Csv.packagesOf. intros Hin.
  pose proof (split_on_pieces Csv.newline Csv.newline csvContent
                (or_introl eq_refl)) as Hlines.
  assert (Htl : Forall (fun l => Csv.lacks Csv.newline l = true)
                       (tl (Csv.split_on Csv.newline csvContent))).
  { destruct (Csv.split_on Csv.newline csvContent); [constructor|].
    now inversion Hlines. }
  destruct (fold_processLine_lists _ Htl [] pkg Hin) as [[] | H]. exact H.
Qed.

(** X15.  The first line of the CSV is a header and lists nothing: a CSV
    of one line, the empty one included, gives no package; and a CSV of
    several lines gives at most one package per line after the first. *)
Theorem processCSV_header (today csvContent : string) :
  (Csv.lacks Csv.newline csvContent = true ->
   compromisedPackages (Csv.processCSV today csvContent) = []) /\
  List.length (compromisedPackages (Csv.processCSV today csvContent))
  <= List.length (Csv.split_on Csv.newline csvContent) - 1.
Proof.
  cbn [Csv.processCSV compromisedPackages]. unfold Csv.packagesOf. split.
  - intros H. now rewrite (split_on_lacks _ _ H).
  - pose proof (fold_processLine_length
                  (tl (Csv.split_on Csv.newline csvContent)) []) as H.
    destruct (Csv.split_on Csv.newline csvContent); cbn in *; lia.
Qed.

(* ================================================================== *)
(** ** The converter: reading back what was written *)

Lemma scanLine_app (a b : string) :
  forall st, Csv.scanLine (a ++ b) st = Csv.scanLine b (Csv.scanLine a st).
Proof.
  induction a as [|x a IH]; intros st; cbn [append Csv.scanLine];
    [reflexivity | apply IH].
Qed.

(** Characters that are no quote, and no comma unless within quotes, are
    added to [current]. *)
Lemma scanLine_plain (seg : string) :
  forall st,
    Csv.lacks Csv.quote seg = true ->
    (Csv.lacks Csv.comma seg = true \/ Csv.inQuotes st = true) ->
    Csv.scanLine seg st
    = {| Csv.parts := Csv.parts st;
         Csv.current := (Csv.current st ++ seg)%string;
         Csv.inQuotes := Csv.inQuotes st |}.
Proof.
  induction seg as [|x seg IH]; intros st Hq Hc; cbn [Csv.scanLine].
  - rewrite append_empty. now destruct st.
  - cbn in Hq. apply andb_prop in Hq. destruct Hq as [Hx Hq].
    apply negb_true_iff in Hx.
    assert (Hstep : Csv.step st x
                    = {| Csv.parts := Csv.parts st;
                         Csv.current := (Csv.current st ++ String x "")%string;
                         Csv.inQuotes := Csv.inQuotes st |}).
    { unfold Csv.step. rewrite Hx.
      destruct Hc as [Hc | Hc].
      - cbn in Hc. apply andb_prop in Hc. destruct Hc as [Hc _].
        apply negb_true_iff in Hc. now rewrite Hc.
      - rewrite Hc. now rewrite andb_false_r. }
    rewrite Hstep, IH; cbn [Csv.parts Csv.current Csv.inQuotes].
    + now rewrite append_assoc.
    + exact Hq.
    + destruct Hc as [Hc | Hc]; [left | now right].
      cbn in Hc. now apply andb_prop in Hc.
Qed.

Lemma scanLine_parts (line : string) :
  forall st, exists more,
    Csv.parts (Csv.scanLine line st) = Csv.parts st ++ more.
Proof.
  induction line as [|x line IH]; intros st; cbn [Csv.scanLine].
  - exists []. now rewrite app_nil_r.
  - destruct (IH (Csv.step st x)) as [more ->]. unfold Csv.step.
    destruct (Ascii.eqb x Csv.quote); [now exists more|].
    destruct (Ascii.eqb x Csv.comma && negb (Csv.inQuotes st)); cbn.
    + rewrite <- app_assoc. now eexists.
    + now exists more.
Qed.

(** A line [name,"versions",rest] has the name and the versions for its
    first two fields, commas within the quotes notwithstanding. *)
Lemma parseLine_row (name versions rest : string) :
  Csv.lacks Csv.quote name = true ->
  Csv.lacks Csv.comma name = true ->
  Str.trim name = name ->
  Csv.lacks Csv.quote versions = true ->
  exists more,
    Csv.parseLine
      (name ++ String Csv.comma (String Csv.quote
         (versions ++ String Csv.quote (String Csv.comma rest))))
    = name :: Str.trim versions :: more.
Proof.
  intros Hq Hc Ht Hv. unfold Csv.parseLine.
  rewrite scanLine_app, (scanLine_plain name) by auto.
  cbn [Csv.parts Csv.current Csv.inQuotes append Csv.scanLine].
  change (Csv.step _ Csv.comma)
    with {| Csv.parts := [Str.trim name]; Csv.current := "";
            Csv.inQuotes := false |}.
  change (Csv.step _ Csv.quote)
    with {| Csv.parts := [Str.trim name]; Csv.current := "";
            Csv.inQuotes := true |}.
  rewrite scanLine_app, (scanLine_plain versions) by auto.
  cbn [Csv.parts Csv.current Csv.inQuotes append Csv.scanLine].
  change (Csv.step _ Csv.quote)
    with {| Csv.parts := [Str.trim name]; Csv.current := versions;
            Csv.inQuotes := false |}.
  change (Csv.step _ Csv.comma)
    with {| Csv.parts := [Str.trim name; Str.trim versions]; Csv.current := "";
            Csv.inQuotes := false |}.
  destruct (scanLine_parts rest
              {| Csv.parts := [Str.trim name; Str.trim versions];
                 Csv.current := ""; Csv.inQuotes := false |}) as [more ->].
  cbn [Csv.parts app]. rewrite Ht. now eexists.
Qed.

Lemma cleanField_facts (s : string) :
  Csv.cleanField s = true ->
  s <> "" /\ Csv.lacks Csv.comma s = true /\ Csv.lacks Csv.quote s = true /\
  Csv.lacks Csv.newline s = true /\ Csv.headOk s = true /\ Csv.lastOk s = true.
Proof.
  unfold Csv.cleanField. intros H.
  apply andb_prop in H. destruct H as [H H5].
  apply andb_prop in H. destruct H as [H H4].
  apply andb_prop in H. destruct H as [H H3].
  apply andb_prop in H. destruct H as [H H2].
  apply andb_prop in H. destruct H as [H H1].
  apply negb_true_iff, String.eqb_neq in H. auto 10.
Qed.

(** Versions joined by [", "] are versions joined by [","], each but the
    first with a space before it. *)
Lemma concat_comma_space (p w : string) (r : list string) :
  (p ++ String.concat ", " (w :: r))%string
  = String.concat (String Csv.comma "")
      ((p ++ w)%string :: map (fun v => String " " v) r).
Proof.
  revert p w. induction r as [|x r IH]; intros p w.
  - reflexivity.
  - change (String.concat ", " (w :: x :: r))
      with (w ++ String Csv.comma (" " ++ String.concat ", " (x :: r)))%string.
    rewrite (IH " " x).
    change (map (fun v => String " " v) (x :: r))
      with (String " " x :: map (fun v => String " " v) r).
    change (String.concat (String Csv.comma "")
              ((p ++ w)%string :: String " " x :: map (fun v => String " " v) r))
      with ((p ++ w) ++ String Csv.comma
              (String.concat (String Csv.comma "")
                 (String " " x :: map (fun v => String " " v) r)))%string.
    now rewrite append_assoc.
Qed.

Lemma trim_space (w : string) : Str.trim (String " " w) = Str.trim w.
Proof. reflexivity. Qed.

(** The list of versions is read back from its rendering. *)
Lemma versionsOf_concat (versions : list string) :
  Forall (fun v => Csv.cleanField v = true) versions ->
  Csv.versionsOf (String.concat ", " versions) = versions.
Proof.
  intros H. destruct versions as [|v vs]; [reflexivity|].
  unfold Csv.versionsOf.
  change (String.concat ", " (v :: vs))
    with ("" ++ String.concat ", " (v :: vs))%string.
  rewrite concat_comma_space. cbn [append].
  rewrite split_on_concat.
  - inversion H as [|? ? Hv Hvs]; subst.
    destruct (cleanField_facts _ Hv) as (Hne & _ & _ & _ & Hh & Hl).
    cbn [map filter]. rewrite (trim_id v Hh Hl).
    rewrite (proj2 (String.eqb_neq v "") Hne). cbn [negb]. f_equal.
    clear Hv Hne Hh Hl H. induction Hvs as [|w ws Hw _ IH]; [reflexivity|].
    destruct (cleanField_facts _ Hw) as (Hne & _ & _ & _ & Hh & Hl).
    cbn [map filter]. rewrite trim_space, (trim_id w Hh Hl).
    rewrite (proj2 (String.eqb_neq w "") Hne). cbn [negb]. now rewrite IH.
  - inversion H as [|? ? Hv Hvs]; subst. constructor.
    + now destruct (cleanField_facts _ Hv) as (_ & Hc & _).
    + apply Forall_map. eapply Forall_impl; [|exact Hvs].
      intros w Hw. cbn. now destruct (cleanField_facts _ Hw) as (_ & -> & _).
Qed.

Lemma concat_versions_facts (versions : list string) :
  Forall (fun v => Csv.cleanField v = true) versions ->
  Csv.lacks Csv.quote (String.concat ", " versions) = true /\
  Csv.lacks Csv.newline (String.concat ", " versions) = true /\
  Csv.headOk (String.concat ", " versions) = true /\
  Csv.lastOk (String.concat ", " versions) = true /\
  (versions <> [] -> String.concat ", " versions <> "").
Proof.
  induction 1 as [|v vs Hv Hvs IH]; [repeat split; congruence|].
  destruct (cleanField_facts _ Hv) as (Hne & _ & Hq & Hn & Hh & Hl).
  destruct vs as [|w ws]; [cbn; auto 10|].
  destruct IH as (IHq & IHn & _ & IHl & IHne).
  change (String.concat ", " (v :: w :: ws))
    with (v ++ ", " ++ String.concat ", " (w :: ws))%string.
  rewrite !lacks_app, Hq, Hn, IHq, IHn.
  repeat split; try reflexivity.
  - now apply headOk_app.
  - rewrite <- append_assoc. apply lastOk_app; [apply IHne; discriminate | exact IHl].
  - intros _. destruct v; [congruence | discriminate].
Qed.

Lemma processLine_row (packages : list Pkg.t) (row : Pkg.t * string) :
  Csv.cleanRow row = true ->
  Csv.processLine packages (Csv.renderRow (fst row) (snd row))
  = packages ++ [fst row].
Proof.
  destruct row as [[name versions] rest]. unfold Csv.cleanRow.
  cbn [fst snd Pkg.name Pkg.compromisedVersions]. intros H.
  apply andb_prop in H. destruct H as [H Hlast].
  apply andb_prop in H. destruct H as [H Hrest].
  apply andb_prop in H. destruct H as [Hname Hvs].
  rewrite forallb_forall in Hvs.
  assert (Hall : Forall (fun v => Csv.cleanField v = true) versions)
    by (now apply Forall_forall).
  destruct (cleanField_facts _ Hname) as (Hne & Hc & Hq & Hn & Hh & Hl).
  destruct (concat_versions_facts _ Hall) as (Vq & Vn & Vh & Vl & _).
  unfold Csv.processLine, Csv.renderRow.
  cbn [Pkg.name Pkg.compromisedVersions].
  set (line := (name ++ String Csv.comma (String Csv.quote
                  (String.concat ", " versions
                   ++ String Csv.quote (String Csv.comma rest))))%string).
  assert (Htrim : Str.trim line = line).
  { apply trim_id.
    - now apply headOk_app.
    - replace line
        with ((name ++ String Csv.comma (String Csv.quote
                 (String.concat ", " versions
                  ++ String Csv.quote (String Csv.comma ""))))
              ++ rest)%string.
      + destruct rest as [|r rest'].
        * rewrite append_empty. unfold Csv.lastOk.
          rewrite rev_app. cbn [Str.rev Str.rev_onto].
          rewrite rev_onto_app, rev_app. reflexivity.
        * apply lastOk_app; [discriminate | exact Hlast].
      + unfold line. rewrite append_assoc. cbn [append].
        now rewrite append_assoc. }
  rewrite Htrim.
  assert (Hline : String.eqb line "" = false).
  { apply String.eqb_neq. unfold line. destruct name; [congruence | discriminate]. }
  rewrite Hline. unfold line.
  destruct (parseLine_row name (String.concat ", " versions) rest Hq Hc
              (trim_id _ Hh Hl) Vq) as [more ->].
  rewrite (trim_id _ Vh Vl), (versionsOf_concat _ Hall). reflexivity.
Qed.

Lemma renderRow_lacks_newline (row : Pkg.t * string) :
  Csv.cleanRow row = true ->
  Csv.lacks Csv.newline (Csv.renderRow (fst row) (snd row)) = true.
Proof.
  destruct row as [[name versions] rest]. unfold Csv.cleanRow.
  cbn [fst snd Pkg.name Pkg.compromisedVersions]. intros H.
  apply andb_prop in H. destruct H as [H _].
  apply andb_prop in H. destruct H as [H H1].
  apply andb_prop in H. destruct H as [H H2].
  rewrite forallb_forall in H2.
  assert (Hall : Forall (fun v => Csv.cleanField v = true) versions)
    by (now apply Forall_forall).
  destruct (cleanField_facts _ H) as (_ & _ & _ & Hn & _).
  destruct (concat_versions_facts _ Hall) as (_ & Vn & _).
  unfold Csv.renderRow. cbn [Pkg.name Pkg.compromisedVersions].
  rewrite lacks_app, Hn. cbn. rewrite lacks_app, Vn. cbn. exact H1.
Qed.

Lemma fold_processLine_rows (rows : list (Pkg.t * string)) :
  Forall (fun row => Csv.cleanRow row = true) rows ->
  forall packages,
    fold_left Csv.processLine
      (map (fun row => Csv.renderRow (fst row) (snd row)) rows) packages
    = packages ++ map fst rows.
Proof.
  induction 1 as [|row rows Hrow _ IH]; intros packages; cbn [map fold_left].
  - now rewrite app_nil_r.
  - rewrite (processLine_row packages row Hrow), IH, <- app_assoc.
    reflexivity.
Qed.

Lemma processCSV_round_trip_aux (today header : string)
    (rows : list (Pkg.t * string)) :
  Csv.lacks Csv.newline header = true ->
  Forall (fun row => Csv.cleanRow row = true) rows ->
  compromisedPackages (Csv.processCSV today (Csv.renderCSV header rows))
  = map fst rows /\
  compromisedPackages
    (Csv.processCSV today
       (Csv.renderCSV header rows ++ String Csv.newline ""))
  = map fst rows.
Proof.
  intros Hh Hrows.
  assert (Hlines : Forall (fun s => Csv.lacks Csv.newline s = true)
                     (header :: map (fun row => Csv.renderRow (fst row) (snd row))
                                    rows)).
  { constructor; [exact Hh|]. apply Forall_map.
    eapply Forall_impl; [|exact Hrows].
    intros row. apply renderRow_lacks_newline. }
  cbn [Csv.processCSV compromisedPackages]. unfold Csv.packagesOf, Csv.renderCSV.
  split.
  - rewrite (split_on_concat _ _ _ Hlines). cbn [tl].
    apply (fold_processLine_rows rows Hrows []).
  - rewrite split_on_app, (split_on_concat _ _ _ Hlines). cbn [tl app Csv.split_on].
    rewrite fold_left_app, (fold_processLine_rows rows Hrows []).
    reflexivity.
Qed.


Lemma processCSV_fields_witness :
  Csv.lacks Csv.quote "x" = true /\
  Csv.lacks Csv.newline "x" = true /\
  Str.trim "x" = "x" /\
  Forall (fun v => Csv.cleanField v = true) ["1.0"; "2.0"].
Proof.
  apply (processCSV_fields "2025-11-25"
           ("name,versions" ++
            String Csv.newline
              (" x ," ++ String Csv.quote
                 (" 1.0 ,, 2.0 " ++ String Csv.quote "")))
           (Pkg.make "x" ["1.0"; "2.0"])).
  left. reflexivity.
Defined.

Lemma processCSV_header_witness :
  compromisedPackages
    (Csv.processCSV "2025-11-25" "package_name,package_versions,sources") = [].
Proof.
  apply (proj1 (processCSV_header "2025-11-25"
                  "package_name,package_versions,sources")).
  reflexivity.
Defined.

(** X17.  What the CSV lists is what the analyzer flags: with the dataset
    converted from a well-formed CSV, every version of a row is classified
    critical for the name of the row (the first row of that name), and a
    name that no row bears is not found. *)
Theorem converted_dataset_detects (today header : string)
    (before after : list (Pkg.t * string)) (row : Pkg.t * string)
    (v other : string) :
  Csv.lacks Csv.newline header = true ->
  Forall (fun r => Csv.cleanRow r = true) (before ++ row :: after) ->
  Forall (fun r => Pkg.name (fst r) <> Pkg.name (fst row)) before ->
  In v (Pkg.compromisedVersions (fst row)) ->
  (forall r, In r (before ++ row :: after) -> Pkg.name (fst r) <> other) ->
  let data :=
    Csv.processCSV today (Csv.renderCSV header (before ++ row :: after)) in
  checkPackage data (VStr (Pkg.name (fst row))) (VStr v)
  = Some (Threat.make critical (Pkg.compromisedVersions (fst row)) (VStr v) true) /\
  forall version, checkPackage data (VStr other) version = None.
Proof.
  intros Hh Hrows Hbefore Hv Hother data.
  assert (Hpk : compromisedPackages data
                = map fst before ++ fst row :: map fst after).
  { unfold data.
    rewrite (proj1 (processCSV_round_trip_aux today header _ Hh Hrows)).
    now rewrite map_app. }
  split.
  - assert (Hfirst : first_named data (Pkg.name (fst row)) (fst row)).
    { exists (map fst before), (map fst after). repeat split; [exact Hpk|].
      apply Forall_map. exact Hbefore. }
    rewrite (checkPackage_matched _ _ _ _ Hfirst).
    now rewrite (proj2 (exact_member_iff _ _) Hv).
  - intros version. unfold checkPackage.
    rewrite (proj2 (find_none_iff (compromisedPackages data) (VStr other)));
      [reflexivity|].
    intros q Hq [= Heq]. rewrite Hpk in Hq.
    change (fst row :: map fst after) with (map fst (row :: after)) in Hq.
    rewrite <- map_app in Hq.
    apply in_map_iff in Hq. destruct Hq as (r & <- & Hr).
    exact (Hother r Hr Heq).
Qed.

Lemma converted_dataset_detects_witness :
  checkPackage
    (Csv.processCSV "2025-11-25"
       (Csv.renderCSV "package_name,package_versions,sources"
          [(Pkg.make "02-echo" ["0.0.7"], "datadog");
           (Pkg.make "@asyncapi/parser" ["3.4.1"; "3.4.2"], "")]))
    (VStr "@asyncapi/parser") (VStr "3.4.2")
  = Some (Threat.make critical ["3.4.1"; "3.4.2"] (VStr "3.4.2") true).
Proof.
  apply (proj1 (converted_dataset_detects "2025-11-25"
                  "package_name,package_versions,sources"
                  [(Pkg.make "02-echo" ["0.0.7"], "datadog")] []
                  (Pkg.make "@asyncapi/parser" ["3.4.1"; "3.4.2"], "")
                  "3.4.2" "express"
                  eq_refl
                  ltac:(repeat constructor)
                  ltac:(repeat constructor; discriminate)
                  ltac:(simpl; auto)
                  ltac:(simpl; intros r [<- | [<- | []]]; discriminate))).
Defined.

(* ================================================================== *)
(** ** White space in version strings *)

Lemma Number_trim (s : string) : Number (Str.trim s) = Number s.
Proof.
  unfold Number, ToNumber.Number. now rewrite trim_idempotent.
Qed.

Lemma nth_error_Forall2 {A B : Type} (R : A -> B -> Prop) (l : list A)
    (l' : list B) :
  Forall2 R l l' ->
  forall i,
    match nth_error l i, nth_error l' i with
    | Some x, Some y => R x y
    | None, None => True
    | _, _ => False
    end.
Proof.
  induction 1 as [|x y l l' Hxy _ IH]; intros [|i]; cbn; auto.
  apply IH.
Qed.

(** X18.  White space around the components of a version string does not
    count: two strings whose components are the same once trimmed compare
    alike against any third. *)
Theorem compareVersions_white_space (a a' b : string) :
  Forall2 (fun x y => Str.trim x = Str.trim y) (Str.split a') (Str.split a) ->
  compareVersions (VStr a') (VStr b) = compareVersions (VStr a) (VStr b) /\
  compareVersions (VStr b) (VStr a') = compareVersions (VStr b) (VStr a).
Proof.
  intros H.
  assert (Hslot : forall i, slot a' i = slot a i).
  { intros i. unfold slot, part. rewrite !nth_error_map.
    pose proof (nth_error_Forall2 _ _ _ H i) as Hi.
    destruct (nth_error (Str.split a') i) as [x|],
             (nth_error (Str.split a) i) as [y|]; try contradiction;
      [|reflexivity].
    cbn. now rewrite <- (Number_trim x), Hi, Number_trim. }
  rewrite !compareVersions_strings. split; f_equal.
  - apply compareStrings_ext; [exact Hslot | reflexivity].
  - apply compareStrings_ext; [reflexivity | exact Hslot].
Qed.

Lemma compareVersions_white_space_witness :
  compareVersions (VStr " 1. 2 .3") (VStr "1.2.4")
  = compareVersions (VStr "1.2.3") (VStr "1.2.4").
Proof.
  apply (proj1 (compareVersions_white_space "1.2.3" " 1. 2 .3" "1.2.4"
                  ltac:(repeat constructor))).
Defined.

(* ================================================================== *)
(** ** What the comparator takes for a number *)

Lemma compareStrings_cases (a b : string) :
  (compareStrings a b = 1%Z <->
   exists k, Num.lt (slot b k) (slot a k) = true /\
             forall j, j < k -> alike (slot a j) (slot b j)) /\
  (compareStrings a b = (-1)%Z <->
   exists k, Num.lt (slot a k) (slot b k) = true /\
             forall j, j < k -> alike (slot a j) (slot b j)) /\
  (compareStrings a b = 0%Z <-> forall k, alike (slot a k) (slot b k)).
Proof.
  assert (Hone : forall a b,
             compareStrings a b = 1%Z <->
             exists k, Num.lt (slot b k) (slot a k) = true /\
                       forall j, j < k -> alike (slot a j) (slot b j)).
  { clear a b. intros a b. unfold compareStrings, compareParts.
    rewrite compareLoop_one. cbn [Nat.add]. split.
    - intros (k & _ & Hlt & Hal). exists k. split; assumption.
    - intros (k & Hlt & Hal). exists k. split; [|split; assumption].
      destruct (Nat.lt_ge_cases k
                  (Nat.max (List.length (map Number (Str.split a)))
                           (List.length (map Number (Str.split b)))))
        as [H | H]; [exact H | exfalso].
      unfold slot in Hlt.
      rewrite (part_beyond _ k), (part_beyond _ k) in Hlt by lia.
      rewrite lt_irrefl in Hlt. discriminate. }
  assert (Hsw : compareStrings a b = (- compareStrings b a)%Z).
  { unfold compareStrings, compareParts.
    rewrite (Nat.max_comm (List.length (map Number (Str.split a)))).
    apply compareLoop_swap. }
  split; [apply Hone|]. split.
  - split.
    + intros H. assert (H1 : compareStrings b a = 1%Z) by lia.
      apply Hone in H1. destruct H1 as (k & Hlt & Hal). exists k.
      split; [exact Hlt|]. intros j Hj. apply alike_sym, Hal, Hj.
    + intros (k & Hlt & Hal).
      enough (compareStrings b a = 1%Z) by lia.
      apply Hone. exists k. split; [exact Hlt|].
      intros j Hj. apply alike_sym, Hal, Hj.
  - unfold compareStrings, compareParts. rewrite compareLoop_zero.
    cbn [Nat.add]. split.
    + intros H k.
      destruct (Nat.lt_ge_cases k
                  (Nat.max (List.length (map Number (Str.split a)))
                           (List.length (map Number (Str.split b)))))
        as [Hk | Hk]; [exact (H k Hk)|].
      unfold slot. rewrite (part_beyond _ k), (part_beyond _ k) by lia.
      apply alike_refl.
    + intros H k _. apply H.
Qed.

(** C5, as the specification states it, fails: a component need not be a
    numeral to count.  [Number] reads [Infinity], hexadecimal, exponent and
    signed forms as numbers, and such a component is not treated as 0:
    [Infinity] compares above 999999 where 0 compares below it, [1.-5]
    compares below [1.0], and [0x1F] above 30. *)
Lemma compareVersions_letters_that_count :
  compareVersions (VStr "Infinity") (VStr "999999") = Ok 1%Z /\
  compareVersions (VStr "0") (VStr "999999") = Ok (-1)%Z /\
  compareVersions (VStr "1.-5") (VStr "1.0") = Ok (-1)%Z /\
  compareVersions (VStr "0x1F") (VStr "30") = Ok 1%Z /\
  compareVersions (VStr "1e3") (VStr "999") = Ok 1%Z.
Proof. repeat split; vm_compute; reflexivity. Qed.

(** C5, amended.  [compareVersions] is total on strings: on any two
    strings it returns -1, 0 or 1 and never throws.  A slot reads 0 when
    the component is missing or when [Number] cannot read it ([NaN], as
    for [x] or [1-beta]); otherwise it reads the number [Number] makes of
    the component, and that includes [Infinity] and the hexadecimal,
    exponent and signed forms, which are not taken for 0.  The result is
    fixed by the slots: 1 or -1 according to the first slot that differs,
    0 when none does; so strings with the same slots compare alike,
    appending [.0] changes nothing, and [compareVersions("1.2", "1.2.0")]
    is 0. *)
Theorem compareVersions_coercion (a b : string) :
  (exists r, compareVersions (VStr a) (VStr b) = Ok r /\
             (r = -1 \/ r = 0 \/ r = 1)%Z) /\
  (forall i,
      slot a i =
      match nth_error (Str.split a) i with
      | None => Num.zero
      | Some c =>
          match Number c with
          | S754_nan => Num.zero
          | S754_zero _ => Num.zero
          | x => x
          end
      end) /\
  (compareVersions (VStr a) (VStr b) = Ok 1%Z <->
   exists k, Num.lt (slot b k) (slot a k) = true /\
             forall j, j < k -> alike (slot a j) (slot b j)) /\
  (compareVersions (VStr a) (VStr b) = Ok (-1)%Z <->
   exists k, Num.lt (slot a k) (slot b k) = true /\
             forall j, j < k -> alike (slot a j) (slot b j)) /\
  (compareVersions (VStr a) (VStr b) = Ok 0%Z <->
   forall k, alike (slot a k) (slot b k)) /\
  (forall a',
      (forall i, slot a' i = slot a i) ->
      compareVersions (VStr a') (VStr b) = compareVersions (VStr a) (VStr b) /\
      compareVersions (VStr b) (VStr a') = compareVersions (VStr b) (VStr a)) /\
  compareVersions (VStr (a ++ ".0")%string) (VStr b)
  = compareVersions (VStr a) (VStr b) /\
  compareVersions (VStr "1.2") (VStr "1.2.0") = Ok 0%Z /\
  (Number "x" = Num.NaN /\ Number "1-beta" = Num.NaN /\
   compareVersions (VStr "1.x") (VStr "1.0") = Ok 0%Z /\
   compareVersions (VStr "1.0.1-beta") (VStr "1.0.0") = Ok 0%Z) /\
  (Number "Infinity" = Num.Infinity /\
   Number "0x1F" = Number "31" /\
   Number "1e3" = Number "1000" /\
   Num.lt (Number "-5") Num.zero = true).
Proof.
  destruct (compareStrings_cases a b) as (H1 & H2 & H3).
  split; [|split; [|split; [|split; [|split; [|split; [|split; [|split]]]]]]].
  - exists (compareStrings a b). split; [reflexivity|].
    apply compareLoop_values.
  - intros i. unfold slot, part. rewrite nth_error_map.
    destruct (nth_error (Str.split a) i) as [c|]; simpl; [|reflexivity].
    destruct (Number c); reflexivity.
  - rewrite compareVersions_strings, <- H1.
    split; [intros [= H]; exact H | intros ->; reflexivity].
  - rewrite compareVersions_strings, <- H2.
    split; [intros [= H]; exact H | intros ->; reflexivity].
  - rewrite compareVersions_strings, <- H3.
    split; [intros [= H]; exact H | intros ->; reflexivity].
  - intros a' H. rewrite !compareVersions_strings. split; f_equal.
    + apply compareStrings_ext; [exact H | reflexivity].
    + apply compareStrings_ext; [reflexivity | exact H].
  - rewrite !compareVersions_strings. f_equal.
    apply compareStrings_ext; [apply slot_trailing_zero | reflexivity].
  - vm_compute. reflexivity.
  - repeat split; vm_compute; reflexivity.
Qed.

(** The slots of ["1.x"] are those of ["1.0"], so the two compare alike
    against ["1"]. *)
Lemma compareVersions_coercion_witness :
  compareVersions (VStr "1.0") (VStr "1") = compareVersions (VStr "1.x") (VStr "1").
Proof.
  apply (proj1 (proj2 (proj2 (proj2 (proj2 (proj2
           (compareVersions_coercion "1.x" "1")))))) "1.0").
  intros [|[|[|i]]]; reflexivity.
Defined.

(* ================================================================== *)
(** ** Nodes without a version, at any depth *)

Lemma represents_entry (deps : value) (forest : list (string * Tree))
    (es : list (string * value)) (key : string) (info : value) :
  represents deps forest ->
  entries deps = Ok es ->
  In (key, info) es ->
  exists t, In (key, t) forest /\ represents_node info t.
Proof.
  intros Hrep Hes Hin. destruct Hrep as [deps es' forest Hes' Hall].
  rewrite Hes in Hes'. injection Hes' as <-.
  destruct (Forall2_In_left _ _ _ _ Hall Hin) as ([k t] & Ht & Hk & Hnode).
  cbn [fst snd] in Hk, Hnode. subst k. now exists t.
Qed.

Lemma preorder_visit (ancestors : list string) (forest : list (string * Tree))
    (key : string) (t : Tree) (d : Dep.t) :
  In (key, t) forest ->
  In d (visit ancestors key t) ->
  In d (preorder ancestors forest).
Proof.
  intros Hin Hd. unfold preorder. apply in_flat_map.
  exists (key, t). split; [exact Hin | exact Hd].
Qed.

(** Every node the walk reaches is listed, under its key, with the version
    read from it and the path from the top. *)
Lemma nodeIn_listed (deps : value) (ancestors : list string) (name : string)
    (info : value) :
  nodeIn deps ancestors name info ->
  forall forest above,
    represents deps forest ->
    In (Dep.make (VStr name) (field info "version")
                 (joinPath (above ++ ancestors ++ [name])))
       (preorder above forest).
Proof.
  induction 1 as [deps es name info Hes Hin
                 |deps es key parent nested ancestors name info
                    Hes Hin Hn Ht _ IH];
    intros forest above Hrep.
  - exact (preorder_lists_entry _ _ _ _ _ above Hrep Hes Hin).
  - destruct (represents_entry _ _ _ _ _ Hrep Hes Hin) as (t & Hint & Hnode).
    apply (preorder_visit above forest key t _ Hint).
    inversion Hnode as [i v nested' Hv Hn' Ht' | i v nested' children Hv Hn' Ht' Hch];
      subst; rewrite Hn in Hn'; injection Hn' as <-; [congruence|].
    cbn [visit]. right.
    fold (preorder (above ++ [key]) children).
    specialize (IH children (above ++ [key]) Hch).
    rewrite <- app_assoc in IH. exact IH.
Qed.

(** C10.  The tree strategy lists every node it reaches, with or without
    a version, at any depth: the result has as many dependencies as the
    tree has nodes, each node is listed under its key with the version
    read from it, and a node without a [version] field is listed with the
    version [undefined].  For a name the dataset lists, the scan then
    reports such a node as a finding, of severity warning, wherever in the
    tree it stands.  The flat strategy, for its part, keeps no entry whose
    version is missing. *)
Theorem versionless_nodes_reported (data : Dataset) (n : string) (pkg : Pkg.t)
    (packageLock deps info : value) (ancestors : list string)
    (forest : list (string * Tree)) :
  first_named data n pkg ->
  prop packageLock "dependencies" = Ok deps ->
  truthy deps = true ->
  truthy (field packageLock "packages") = false ->
  represents deps forest ->
  nodeIn deps ancestors n info ->
  field info "version" = VUndefined ->
  (exists dependencies,
      extractDependencies packageLock = Ok dependencies /\
      List.length dependencies = forestNodes forest /\
      (forall above name node,
          nodeIn deps above name node ->
          In (Dep.make (VStr name) (field node "version")
                       (joinPath (above ++ [name])))
             dependencies) /\
      In (Dep.make (VStr n) VUndefined (joinPath (ancestors ++ [n])))
         dependencies /\
      In (Finding.make (VStr n) VUndefined (joinPath (ancestors ++ [n]))
            (Threat.make warning (Pkg.compromisedVersions pkg) VUndefined false))
         (threats (scan data dependencies))) /\
  (forall packages r,
      forEach packages extractPackage [] = Ok r ->
      forall d, In d r -> truthy (Dep.version d) = true) /\
  analyzePackageLock (Some Sample.data) Sample.versionless
  = Ok (Displayed
          {| safe := 0;
             warnings := 0;
             threats :=
               [Finding.make (VStr "X") VUndefined "X"
                  (Threat.make warning ["1.0.0"; "3.0.0"] VUndefined false)];
             allPackages := [Dep.make (VStr "X") VUndefined "X"] |}) /\
  analyzePackageLock (Some Sample.data) versionlessBelow
  = Ok (Displayed
          {| safe := 1;
             warnings := 0;
             threats :=
               [Finding.make (VStr "X") VUndefined "a > X"
                  (Threat.make warning ["1.0.0"; "3.0.0"] VUndefined false)];
             allPackages := [Dep.make (VStr "a") (VStr "1.0.0") "a";
                             Dep.make (VStr "X") VUndefined "a > X"] |}).
Proof.
  intros Hfirst Hd Ht Hp Hrep Hnode Hv.
  split; [|split; [|split]].
  - exists (preorder [] forest).
    assert (Hall : forall above name node,
               nodeIn deps above name node ->
               In (Dep.make (VStr name) (field node "version")
                            (joinPath (above ++ [name])))
                  (preorder [] forest)).
    { intros above name node H.
      exact (nodeIn_listed _ _ _ _ H forest [] Hrep). }
    assert (Hlisted : In (Dep.make (VStr n) VUndefined
                                   (joinPath (ancestors ++ [n])))
                         (preorder [] forest)).
    { rewrite <- Hv. now apply Hall. }
    split; [now apply (extractDependencies_tree _ deps)|].
    split; [apply length_preorder|]. split; [exact Hall|].
    split; [exact Hlisted|].
    apply (scan_reports data _
             (Dep.make (VStr n) VUndefined (joinPath (ancestors ++ [n])))
             _ Hlisted).
    exact (checkPackage_undefined _ _ _ Hfirst).
  - intros packages r Hr d Hd'.
    destruct (forEach_extractPackage_versions _ _ _ Hr d Hd') as [[] | H].
    exact H.
  - vm_compute. reflexivity.
  - vm_compute. reflexivity.
Qed.

Lemma versionless_nodes_reported_witness :
  exists dependencies,
    extractDependencies versionlessBelow = Ok dependencies /\
    List.length dependencies
    = forestNodes [("a", Node (VStr "1.0.0") [("X", Node VUndefined [])])] /\
    (forall above name node,
        nodeIn (VObj [("a", VObj [("version", VStr "1.0.0");
                                  ("dependencies", VObj [("X", VObj [])])])])
               above name node ->
        In (Dep.make (VStr name) (field node "version")
                     (joinPath (above ++ [name])))
           dependencies) /\
    In (Dep.make (VStr "X") VUndefined (joinPath (["a"] ++ ["X"]))) dependencies /\
    In (Finding.make (VStr "X") VUndefined (joinPath (["a"] ++ ["X"]))
          (Threat.make warning ["1.0.0"; "3.0.0"] VUndefined false))
       (threats (scan Sample.data dependencies)).
Proof.
  refine (proj1 (versionless_nodes_reported Sample.data "X"
                   (Pkg.make "X" ["1.0.0"; "3.0.0"])
                   versionlessBelow
                   (VObj [("a", VObj [("version", VStr "1.0.0");
                                      ("dependencies", VObj [("X", VObj [])])])])
                   (VObj []) ["a"]
                   [("a", Node (VStr "1.0.0") [("X", Node VUndefined [])])]
                   first_named_sample eq_refl eq_refl eq_refl _ _ eq_refl)).
  - econstructor; [reflexivity|].
    constructor; [|constructor]. split; [reflexivity|].
    eapply represents_inner; try reflexivity.
    econstructor; [reflexivity|].
    constructor; [|constructor]. split; [reflexivity|].
    eapply represents_leaf; reflexivity.
  - eapply nodeIn_below;
      [reflexivity | left; reflexivity | reflexivity | reflexivity |].
    eapply nodeIn_top; [reflexivity | left; reflexivity].
Defined.

(* ================================================================== *)
(** ** The converter: rows that end in white space *)

Lemma trim_left_app (x y : string) :
  Csv.headOk y = true ->
  Str.trim_left (x ++ y) = (Str.trim_left x ++ y)%string.
Proof.
  intros Hy. induction x as [|c x IH]; cbn [append Str.trim_left].
  - now apply trim_left_id.
  - destruct (Str.is_space c); [exact IH | reflexivity].
Qed.

(** Trimming a line that begins and ends well before its last part only
    takes white space off the end of that part. *)
Lemma trim_app (a rest : string) :
  a <> "" -> Csv.headOk a = true -> Csv.lastOk a = true ->
  Str.trim (a ++ rest)
  = (a ++ Str.rev (Str.trim_left (Str.rev rest)))%string.
Proof.
  intros Hne Hh Hl. unfold Str.trim.
  rewrite (trim_left_id (a ++ rest)) by (now apply headOk_app).
  rewrite rev_app, (trim_left_app _ _ Hl), rev_app, rev_involutive.
  reflexivity.
Qed.

Lemma renderRow_rest (pkg : Pkg.t) (rest : string) :
  Csv.renderRow pkg rest = (Csv.renderRow pkg "" ++ rest)%string.
Proof.
  unfold Csv.renderRow. rewrite append_assoc. cbn [append].
  now rewrite append_assoc.
Qed.

Lemma renderRow_empty_facts (pkg : Pkg.t) :
  Csv.cleanField (Pkg.name pkg) = true ->
  Csv.renderRow pkg "" <> "" /\
  Csv.headOk (Csv.renderRow pkg "") = true /\
  Csv.lastOk (Csv.renderRow pkg "") = true.
Proof.
  intros Hname.
  destruct (cleanField_facts _ Hname) as (Hne & _ & _ & _ & Hh & _).
  unfold Csv.renderRow. repeat split.
  - destruct (Pkg.name pkg); [congruence | discriminate].
  - now apply headOk_app.
  - unfold Csv.lastOk. rewrite rev_app. cbn [Str.rev Str.rev_onto].
    rewrite rev_onto_app, rev_app. reflexivity.
Qed.

Lemma processLine_trim (packages : list Pkg.t) (l l' : string) :
  Str.trim l = Str.trim l' ->
  Csv.processLine packages l = Csv.processLine packages l'.
Proof. intros H. unfold Csv.processLine. now rewrite H. Qed.

Lemma processLine_readable (packages : list Pkg.t) (row : Pkg.t * string) :
  readableRow row = true ->
  Csv.processLine packages (Csv.renderRow (fst row) (snd row))
  = packages ++ [fst row].
Proof.
  destruct row as [pkg rest]. unfold readableRow. cbn [fst snd]. intros H.
  apply andb_prop in H. destruct H as [H Hrest].
  apply andb_prop in H. destruct H as [Hname Hvs].
  destruct (renderRow_empty_facts pkg Hname) as (Hne & Hh & Hl).
  set (rest' := Str.rev (Str.trim_left (Str.rev rest))).
  assert (Hclean : Csv.cleanRow (pkg, rest') = true).
  { unfold Csv.cleanRow. cbn [fst snd]. rewrite Hname, Hvs. cbn [andb].
    unfold rest', Csv.lastOk.
    rewrite lacks_rev, rev_involutive, trim_left_headOk, andb_true_r.
    apply lacks_trim_left. now rewrite lacks_rev. }
  transitivity (Csv.processLine packages (Csv.renderRow pkg rest'));
    [|exact (processLine_row packages (pkg, rest') Hclean)].
  apply processLine_trim.
  rewrite (renderRow_rest pkg rest), (renderRow_rest pkg rest').
  rewrite !(trim_app _ _ Hne Hh Hl). f_equal. unfold rest'.
  now rewrite rev_involutive, (trim_left_id _ (trim_left_headOk _)).
Qed.

Lemma renderRow_readable_lacks_newline (row : Pkg.t * string) :
  readableRow row = true ->
  Csv.lacks Csv.newline (Csv.renderRow (fst row) (snd row)) = true.
Proof.
  destruct row as [[name versions] rest]. unfold readableRow.
  cbn [fst snd Pkg.name Pkg.compromisedVersions]. intros H.
  apply andb_prop in H. destruct H as [H H1].
  apply andb_prop in H. destruct H as [H H2].
  rewrite forallb_forall in H2.
  assert (Hall : Forall (fun v => Csv.cleanField v = true) versions)
    by (now apply Forall_forall).
  destruct (cleanField_facts _ H) as (_ & _ & _ & Hn & _).
  destruct (concat_versions_facts _ Hall) as (_ & Vn & _).
  unfold Csv.renderRow. cbn [Pkg.name Pkg.compromisedVersions].
  rewrite lacks_app, Hn. cbn. rewrite lacks_app, Vn. cbn. exact H1.
Qed.

Lemma fold_processLine_readable (rows : list (Pkg.t * string)) :
  Forall (fun row => readableRow row = true) rows ->
  forall packages,
    fold_left Csv.processLine
      (map (fun row => Csv.renderRow (fst row) (snd row)) rows) packages
    = packages ++ map fst rows.
Proof.
  induction 1 as [|row rows Hrow _ IH]; intros packages; cbn [map fold_left].
  - now rewrite app_nil_r.
  - rewrite (processLine_readable packages row Hrow), IH, <- app_assoc.
    reflexivity.
Qed.

(** X16.  The converter reads back what the CSV format writes.  Take a
    header line without line feed and, for each package, one row
    [name,"v1, v2, ...",rest] where the name and the versions are clean
    fields (not empty; no comma, double quote or line feed; no white
    space around) and the rest holds no line feed; the rest may be empty,
    hold quoted commas, or end in white space such as the carriage return
    of a CRLF file.  From these lines joined by line feeds the converter
    builds the dataset that lists exactly these packages, in order, each
    with its versions; a line feed after the last row changes nothing. *)
Theorem processCSV_round_trip (today header : string)
    (rows : list (Pkg.t * string)) :
  Csv.lacks Csv.newline header = true ->
  Forall (fun row => readableRow row = true) rows ->
  compromisedPackages (Csv.processCSV today (Csv.renderCSV header rows))
  = map fst rows /\
  compromisedPackages
    (Csv.processCSV today
       (Csv.renderCSV header rows ++ String Csv.newline ""))
  = map fst rows.
Proof.
  intros Hh Hrows.
  assert (Hlines : Forall (fun s => Csv.lacks Csv.newline s = true)
                     (header :: map (fun row => Csv.renderRow (fst row) (snd row))
                                    rows)).
  { constructor; [exact Hh|]. apply Forall_map.
    eapply Forall_impl; [|exact Hrows].
    intros row. apply renderRow_readable_lacks_newline. }
  cbn [Csv.processCSV compromisedPackages]. unfold Csv.packagesOf, Csv.renderCSV.
  split.
  - rewrite (split_on_concat _ _ _ Hlines). cbn [tl].
    apply (fold_processLine_readable rows Hrows []).
  - rewrite split_on_app, (split_on_concat _ _ _ Hlines). cbn [tl app Csv.split_on].
    rewrite fold_left_app, (fold_processLine_readable rows Hrows []).
    reflexivity.
Qed.

(** Two rows of a CRLF file: each ends in a carriage return. *)
Lemma processCSV_round_trip_witness :
  compromisedPackages
    (Csv.processCSV "2025-11-25"
       (Csv.renderCSV ("package_name,package_versions,sources" ++ String "013" "")
          [(Pkg.make "@asyncapi/parser" ["3.4.1"; "3.4.2"],
            ("datadog" ++ String "013" "")%string);
           (Pkg.make "02-echo" ["0.0.7"], String "013" "")]))
  = [Pkg.make "@asyncapi/parser" ["3.4.1"; "3.4.2"]; Pkg.make "02-echo" ["0.0.7"]].
Proof.
  apply (proj1 (processCSV_round_trip "2025-11-25"
                  ("package_name,package_versions,sources" ++ String "013" "")
                  [(Pkg.make "@asyncapi/parser" ["3.4.1"; "3.4.2"],
                    ("datadog" ++ String "013" "")%string);
                   (Pkg.make "02-echo" ["0.0.7"], String "013" "")]
                  eq_refl
                  ltac:(repeat constructor))).
Defined.

(** A carriage return inside a field, unlike one at its end, is kept. *)
Example processCSV_inner_carriage_return :
  compromisedPackages
    (Csv.processCSV "2025-11-25"
       ("h" ++ String Csv.newline
          ("na" ++ String "013" ("me,1" ++ String "013" ("2" ++ String "013" "")))))
  = [Pkg.make ("na" ++ String "013" "me") [("1" ++ String "013" "2")%string]].
Proof. vm_compute. reflexivity. Qed.
